(** * Face-enrollment flow of the visitor check-in UI

    A shallow embedding of [src/components/FaceRegistration.tsx]: the React
    component's state, its event handlers (with their [try]/[catch]/[finally]
    and [await] structure), its render function, and the event loop that
    drives them. *)

From Stdlib Require Import List String Bool Arith Lia.
Import ListNotations.
Open Scope string_scope.
Set Warnings "-register-all".

(** ** JavaScript values

    [data] (the parsed response body) is typed [any] in the source, so it is
    modelled as an arbitrary JSON value; [JUndefined] is the value of a
    missing property.  Number literals are never inspected by the component
    and are kept as text. *)

Inductive jsval : Type :=
| JUndefined
| JNull
| JBool (b : bool)
| JNum (lit : string)
| JStr (s : string)
| JArr (items : list jsval)
| JObj (fields : list (string * jsval)).

(** A thrown JavaScript exception: its [name] and [message]. *)
Inductive exn : Type :=
| Error (name message : string).

Definition TypeError (message : string) : exn := Error "TypeError" message.

Fixpoint lookup_field (k : string) (fields : list (string * jsval)) : jsval :=
  match fields with
  | [] => JUndefined
  | (k', v) :: rest => if String.eqb k k' then v else lookup_field k rest
  end.

(** [d.k]: reading a property of [null] or [undefined] throws a TypeError;
    on an object it yields the property or [undefined]; the primitives and
    arrays have no property of the names read here. *)
Definition get_member (d : jsval) (k : string) : exn + jsval :=
  match d with
  | JUndefined =>
      inl (TypeError ("Cannot read properties of undefined (reading '" ++ k ++ "')"))
  | JNull =>
      inl (TypeError ("Cannot read properties of null (reading '" ++ k ++ "')"))
  | JObj fields => inr (lookup_field k fields)
  | _ => inr JUndefined
  end.

(** [v === s] for a string literal [s]. *)
Definition strict_eq_str (v : jsval) (s : string) : bool :=
  match v with
  | JStr s' => String.eqb s' s
  | _ => false
  end.

(** ** Data model *)

(** [useState<"consent" | "scanning" | "completed">]. *)
Inductive Step : Type := consent | scanning | completed.

Definition Step_eqb (a b : Step) : bool :=
  match a, b with
  | consent, consent | scanning, scanning | completed, completed => true
  | _, _ => false
  end.

(** A [MediaStream] handed out by the platform, with the ids of its tracks. *)
Record MediaStream : Type := mkStream {
  stream_id : nat;
  getTracks : list nat
}.

(** The six [useState] cells of the component. *)
Record Session : Type := mkSession {
  currentStep : Step;
  isScanning : bool;
  stream : option MediaStream;
  hasPermission : option bool;
  consentChecked : bool;
  scannedFaceId : jsval
}.

(** The initial values passed to [useState]. *)
Definition initialSession : Session :=
  {| currentStep := consent;
     isScanning := false;
     stream := None;
     hasPermission := None;
     consentChecked := false;
     scannedFaceId := JStr "" |}.

Record VisitorInfo : Type := mkVisitorInfo {
  name : string;
  company : string;
  visiting : string;
  visitorType : string
}.

(** The data props of [FaceRegistrationProps]; the callback props
    ([onClose], [onAutoCheckIn], [onFaceRegistered]) appear as effects. *)
Record Props : Type := mkProps {
  visitorName : string;
  visitorInfo : option VisitorInfo
}.

(** The argument of [getUserMedia]. *)
Record Constraints : Type := mkConstraints {
  ideal_width : nat;
  ideal_height : nat;
  facingMode : string
}.

Definition cameraConstraints : Constraints :=
  {| ideal_width := 640; ideal_height := 480; facingMode := "user" |}.

(** The argument of [fetch]; [body] is the value handed to
    [JSON.stringify]. *)
Record Request : Type := mkRequest {
  url : string;
  method : string;
  headers : list (string * string);
  body : jsval
}.

(** What [fetch] resolves to; [json] is the outcome of [response.json()]. *)
Record Response : Type := mkResponse {
  http_status : nat;
  json : exn + jsval
}.

(** ** Effects

    Everything a handler does to the outside: calls of the state setters
    (queued by React and committed afterwards), of the platform, of the toast
    library and of the callback props. *)

Inductive timerCallback : Type :=
| callOnAutoCheckIn.   (* () => { onAutoCheckIn(); } *)

Inductive effect : Type :=
| setCurrentStep (s : Step)
| setIsScanning (b : bool)
| setStream (m : option MediaStream)
| setHasPermission (b : bool)
| setConsentChecked (b : bool)
| setScannedFaceId (v : jsval)
| track_stop (t : nat)
| set_srcObject (m : MediaStream)
| console_error (msg : string) (e : exn)
| console_log (msg : string) (v : jsval)
| toast_error (msg : string)
| toast_success (msg : string)
| setTimeout (cb : timerCallback) (ms : nat)
| onAutoCheckIn
| onClose.

(** ** Handler bodies

    A handler body is a finite tree: it performs effects, asks the DOM
    ([CaptureFrame], [VideoRefCurrent]), suspends at an [await]
    ([GetUserMedia], [Fetch], [ResponseJson]) and ends normally or with an
    exception. *)

Inductive Prog : Type :=
| Ret
| Throw (e : exn)
| Do (e : effect) (k : Prog)
| GetUserMedia (c : Constraints) (k : exn + MediaStream -> Prog)
| Fetch (req : Request) (k : exn + Response -> Prog)
| ResponseJson (r : Response) (k : exn + jsval -> Prog)
| CaptureFrame (mime : string) (k : exn + string -> Prog)
| VideoRefCurrent (k : bool -> Prog).

Declare Scope prog_scope.
Delimit Scope prog_scope with prog.
Bind Scope prog_scope with Prog.
Notation "e ;; k" := (Do e k) (at level 61, right associativity) : prog_scope.
Open Scope prog_scope.

(** [await p] / a throwing call: a rejection is rethrown at the call. *)
Definition or_throw {A : Type} (k : A -> Prog) (o : exn + A) : Prog :=
  match o with
  | inl e => Throw e
  | inr a => k a
  end.

(** [p; q] *)
Fixpoint seq (p q : Prog) : Prog :=
  match p with
  | Ret => q
  | Throw e => Throw e
  | Do e k => Do e (seq k q)
  | GetUserMedia c k => GetUserMedia c (fun o => seq (k o) q)
  | Fetch r k => Fetch r (fun o => seq (k o) q)
  | ResponseJson r k => ResponseJson r (fun o => seq (k o) q)
  | CaptureFrame m k => CaptureFrame m (fun o => seq (k o) q)
  | VideoRefCurrent k => VideoRefCurrent (fun o => seq (k o) q)
  end.

(** [try { p } catch (error) { h error }] *)
Fixpoint try_catch (p : Prog) (h : exn -> Prog) : Prog :=
  match p with
  | Ret => Ret
  | Throw e => h e
  | Do e k => Do e (try_catch k h)
  | GetUserMedia c k => GetUserMedia c (fun o => try_catch (k o) h)
  | Fetch r k => Fetch r (fun o => try_catch (k o) h)
  | ResponseJson r k => ResponseJson r (fun o => try_catch (k o) h)
  | CaptureFrame m k => CaptureFrame m (fun o => try_catch (k o) h)
  | VideoRefCurrent k => VideoRefCurrent (fun o => try_catch (k o) h)
  end.

(** [try { p } finally { f }]: [f] runs on both exits, and the exception of
    [p], if any, is rethrown after it. *)
Fixpoint try_finally (p f : Prog) : Prog :=
  match p with
  | Ret => f
  | Throw e => seq f (Throw e)
  | Do e k => Do e (try_finally k f)
  | GetUserMedia c k => GetUserMedia c (fun o => try_finally (k o) f)
  | Fetch r k => Fetch r (fun o => try_finally (k o) f)
  | ResponseJson r k => ResponseJson r (fun o => try_finally (k o) f)
  | CaptureFrame m k => CaptureFrame m (fun o => try_finally (k o) f)
  | VideoRefCurrent k => VideoRefCurrent (fun o => try_finally (k o) f)
  end.

(** [xs.forEach(x => eff x)] followed by [k]. *)
Fixpoint forEach {A : Type} (xs : list A) (eff : A -> effect) (k : Prog) : Prog :=
  match xs with
  | [] => k
  | x :: rest => eff x ;; forEach rest eff k
  end.

(** ** The handlers of [FaceRegistration] *)

(** [startCamera] (lines 37-57), in a page where [navigator.mediaDevices] is
    defined, so that line 39 reaches [getUserMedia]; [startCameraIn] below
    covers the page where it is not. *)
Definition startCamera : Prog :=
  try_catch
    (GetUserMedia cameraConstraints (or_throw (fun mediaStream =>
       setStream (Some mediaStream) ;;
       setHasPermission true ;;
       VideoRefCurrent (fun present =>
         if present then set_srcObject mediaStream ;; Ret else Ret))))
    (fun error =>
       console_error "Kunde inte starta kamera:" error ;;
       setHasPermission false ;;
       toast_error "Kunde inte komma åt kameran. Kontrollera behörigheter." ;;
       Ret).

(** [handleConsentAccepted] (lines 31-35), closed over the render's
    [consentChecked]. *)
Definition handleConsentAccepted (s : Session) : Prog :=
  if negb (consentChecked s) then Ret
  else setCurrentStep scanning ;; startCamera.

(** [stopCamera] (lines 59-64), closed over the render's [stream]. *)
Definition stopCamera (s : Session) : Prog :=
  match stream s with
  | Some m => forEach (getTracks m) track_stop (setStream None ;; Ret)
  | None => Ret
  end.

(** The cleanup returned by [useEffect(..., [])] (lines 66-70).  The
    dependency list is empty, so the effect runs once, after the first
    render, and its cleanup keeps the [stopCamera] of that render, whose
    [stream] is the initial one. *)
Definition effectCleanup : Prog := stopCamera initialSession.

(** [visitorInfo || { name: visitorName, company: '', visiting: '',
    visitorType: 'regular' }] (lines 93-98). *)
Definition visitorInfoOrDefault (p : Props) : VisitorInfo :=
  match visitorInfo p with
  | Some vi => vi
  | None => {| name := visitorName p; company := ""; visiting := "";
               visitorType := "regular" |}
  end.

Definition visitorInfoObject (vi : VisitorInfo) : jsval :=
  JObj [("name", JStr (name vi)); ("company", JStr (company vi));
        ("visiting", JStr (visiting vi)); ("visitorType", JStr (visitorType vi))].

(** The request of lines 88-100. *)
Definition scanRequest (p : Props) (imageBase64 : string) : Request :=
  {| url := "http://localhost:5000/api/scan-face";
     method := "POST";
     headers := [("Content-Type", "application/json")];
     body := JObj [("image", JStr imageBase64);
                   ("visitorInfo", visitorInfoObject (visitorInfoOrDefault p))] |}.

(** Lines 105-115: the branch on [data.status]. *)
Definition handleScanResponse (data : jsval) : Prog :=
  or_throw (fun status =>
    if strict_eq_str status "success" then
      or_throw (fun face_id =>
        setScannedFaceId face_id ;;
        toast_success "Ansikte och personuppgifter sparade!" ;;
        setTimeout callOnAutoCheckIn 1000 ;;
        Ret) (get_member data "face_id")
    else
      toast_error "Kunde inte spara ansikte och uppgifter." ;; Ret)
    (get_member data "status").

(** The [try] block of [captureAndScanFace] (lines 76-115).  [CaptureFrame]
    stands for lines 77-85, the drawing of the video frame on a canvas and
    [canvas.toDataURL('image/jpeg')], any of which may throw. *)
Definition scanAttempt (p : Props) : Prog :=
  CaptureFrame "image/jpeg" (or_throw (fun imageBase64 =>
    Fetch (scanRequest p imageBase64) (or_throw (fun response =>
      ResponseJson response (or_throw (fun data =>
        console_log "Scan response:" data ;;
        handleScanResponse data)))))).

(** Its [catch] block (lines 117-119). *)
Definition scanCatch (error : exn) : Prog :=
  console_error "Fel vid ansiktsskanning:" error ;;
  toast_error "Kunde inte skanna ansikte. Försök igen." ;;
  Ret.

(** [captureAndScanFace] (lines 72-123). *)
Definition captureAndScanFace (p : Props) : Prog :=
  setIsScanning true ;;
  try_finally
    (try_catch (scanAttempt p) scanCatch)
    (setIsScanning false ;; Ret).

(** ** Committing state updates

    Every setter is called with a value, never with an updater function, so
    the committed state is the queued calls applied in order. *)

Definition apply_setter (e : effect) (s : Session) : Session :=
  match e with
  | setCurrentStep v =>
      mkSession v (isScanning s) (stream s) (hasPermission s) (consentChecked s) (scannedFaceId s)
  | setIsScanning v =>
      mkSession (currentStep s) v (stream s) (hasPermission s) (consentChecked s) (scannedFaceId s)
  | setStream v =>
      mkSession (currentStep s) (isScanning s) v (hasPermission s) (consentChecked s) (scannedFaceId s)
  | setHasPermission v =>
      mkSession (currentStep s) (isScanning s) (stream s) (Some v) (consentChecked s) (scannedFaceId s)
  | setConsentChecked v =>
      mkSession (currentStep s) (isScanning s) (stream s) (hasPermission s) v (scannedFaceId s)
  | setScannedFaceId v =>
      mkSession (currentStep s) (isScanning s) (stream s) (hasPermission s) (consentChecked s) v
  | _ => s
  end.

Definition commit (t : list effect) (s : Session) : Session :=
  fold_left (fun acc e => apply_setter e acc) t s.

(** ** Running one invocation to its end

    [Env] fixes what the outside answers during one invocation of a handler:
    the outcome of [getUserMedia], of [fetch], of the frame capture, and
    whether [videoRef.current] is set.  [response.json()] is answered by the
    response itself. *)

Record Env : Type := mkEnv {
  env_camera : exn + MediaStream;
  env_fetch : exn + Response;
  env_frame : exn + string;
  env_videoRef : bool
}.

Inductive completion : Type :=
| normal
| thrown (e : exn).

Fixpoint run (env : Env) (p : Prog) : list effect * completion :=
  match p with
  | Ret => ([], normal)
  | Throw e => ([], thrown e)
  | Do e k => let (t, c) := run env k in (e :: t, c)
  | GetUserMedia _ k => run env (k (env_camera env))
  | Fetch _ k => run env (k (env_fetch env))
  | ResponseJson r k => run env (k (json r))
  | CaptureFrame _ k => run env (k (env_frame env))
  | VideoRefCurrent k => run env (k (env_videoRef env))
  end.

Definition trace (env : Env) (p : Prog) : list effect := fst (run env p).
Definition outcome (env : Env) (p : Prog) : completion := snd (run env p).

(** The requests an invocation sends: the arguments of the [fetch] calls it
    reaches. *)
Fixpoint requests (env : Env) (p : Prog) : list Request :=
  match p with
  | Ret | Throw _ => []
  | Do _ k => requests env k
  | GetUserMedia _ k => requests env (k (env_camera env))
  | Fetch req k => req :: requests env (k (env_fetch env))
  | ResponseJson r k => requests env (k (json r))
  | CaptureFrame _ k => requests env (k (env_frame env))
  | VideoRefCurrent k => requests env (k (env_videoRef env))
  end.

(** The camera requests an invocation issues. *)
Fixpoint cameraRequests (env : Env) (p : Prog) : list Constraints :=
  match p with
  | Ret | Throw _ => []
  | Do _ k => cameraRequests env k
  | GetUserMedia c k => c :: cameraRequests env (k (env_camera env))
  | Fetch _ k => cameraRequests env (k (env_fetch env))
  | ResponseJson r k => cameraRequests env (k (json r))
  | CaptureFrame _ k => cameraRequests env (k (env_frame env))
  | VideoRefCurrent k => cameraRequests env (k (env_videoRef env))
  end.

(** ** Render (lines 125-262) *)

Inductive StepView : Type :=
| ConsentView (checked : bool) (continueDisabled : bool)
| ScanningView (captureDisabled : bool) (captureLabel : string)
| CompletedView.

Inductive View : Type :=
| PermissionDeniedView                         (* close, cancel, retry *)
| MainView (title : string) (content : StepView).

Definition is_false (b : option bool) : bool :=
  match b with
  | Some false => true
  | _ => false
  end.

Definition is_some {A : Type} (o : option A) : bool :=
  match o with
  | Some _ => true
  | None => false
  end.

Definition title_of (p : Props) (s : Session) : string :=
  match currentStep s with
  | consent => "Samtycke för ansiktsregistrering - " ++ visitorName p
  | scanning => "Registrera ansikte - " ++ visitorName p
  | completed => "Registrering slutförd"
  end.

Definition render (p : Props) (s : Session) : View :=
  if is_false (hasPermission s) && Step_eqb (currentStep s) scanning then
    PermissionDeniedView
  else
    MainView (title_of p s)
      (match currentStep s with
       | consent => ConsentView (consentChecked s) (negb (consentChecked s))
       | scanning =>
           ScanningView (isScanning s || negb (is_some (stream s)))
                        (if isScanning s then "Skannar..." else "Skanna ansikte")
       | completed => CompletedView
       end).

(** The controls of a view that respond to the user. *)
Definition continueEnabled (v : View) : bool :=
  match v with
  | MainView _ (ConsentView _ disabled) => negb disabled
  | _ => false
  end.

Definition captureEnabled (v : View) : bool :=
  match v with
  | MainView _ (ScanningView disabled _) => negb disabled
  | _ => false
  end.

Definition retryOffered (v : View) : bool :=
  match v with
  | PermissionDeniedView => true
  | _ => false
  end.

Definition checkboxShown (v : View) : bool :=
  match v with
  | MainView _ (ConsentView _ _) => true
  | _ => false
  end.

(** The [<video>] element, to which [videoRef] is attached. *)
Definition videoShown (v : View) : bool :=
  match v with
  | MainView _ (ScanningView _ _) => true
  | _ => false
  end.

(** ** The event loop

    A mounted component reacts to user events on the rendered view and to the
    settling of the promises its handlers await.  A handler runs until its
    next [await]; the setter calls it made are then committed. *)

Inductive Suspended : Type :=
| awaitingCamera (c : Constraints) (k : exn + MediaStream -> Prog)
| awaitingFetch (req : Request) (k : exn + Response -> Prog)
| awaitingJson (r : Response) (k : exn + jsval -> Prog).

Inductive Paused : Type :=
| finished (c : completion)
| suspended (w : Suspended).

(** Run [p] up to its next [await], answering the DOM reads. *)
Fixpoint advance (frame : exn + string) (videoRef : bool) (p : Prog)
  : list effect * Paused :=
  match p with
  | Ret => ([], finished normal)
  | Throw e => ([], finished (thrown e))
  | Do e k => let (t, r) := advance frame videoRef k in (e :: t, r)
  | GetUserMedia c k => ([], suspended (awaitingCamera c k))
  | Fetch req k => ([], suspended (awaitingFetch req k))
  | ResponseJson r k => ([], suspended (awaitingJson r k))
  | CaptureFrame _ k => advance frame videoRef (k frame)
  | VideoRefCurrent k => advance frame videoRef (k videoRef)
  end.

Record Config : Type := mkConfig {
  session : Session;                      (* the committed state *)
  mounted : bool;
  liveTracks : list nat;                  (* camera tracks not yet stopped *)
  pending : list Suspended;               (* handlers waiting at an await *)
  timers : list (timerCallback * nat);    (* armed timeouts *)
  log : list effect                       (* every effect so far, in order *)
}.

Definition initialConfig : Config :=
  {| session := initialSession; mounted := true; liveTracks := [];
     pending := []; timers := []; log := [] |}.

Fixpoint remove_nth {A : Type} (i : nat) (l : list A) : list A :=
  match l, i with
  | [], _ => []
  | _ :: rest, 0 => rest
  | x :: rest, S j => x :: remove_nth j rest
  end.

(** One effect on the configuration.  Setters of an unmounted component do
    nothing. *)
Definition perform (c : Config) (e : effect) : Config :=
  {| session := if mounted c then apply_setter e (session c) else session c;
     mounted := mounted c;
     liveTracks := match e with
                   | track_stop t => List.remove Nat.eq_dec t (liveTracks c)
                   | _ => liveTracks c
                   end;
     pending := pending c;
     timers := match e with
               | setTimeout cb ms => timers c ++ [(cb, ms)]
               | _ => timers c
               end;
     log := log c ++ [e] |}.

Definition performAll (t : list effect) (c : Config) : Config :=
  fold_left perform t c.

Definition park (r : Paused) (c : Config) : Config :=
  match r with
  | finished _ => c
  | suspended w =>
      mkConfig (session c) (mounted c) (liveTracks c) (pending c ++ [w])
               (timers c) (log c)
  end.

(** [videoRef.current] is the [<video>] element of the committed view. *)
Definition videoRefCurrent (p : Props) (c : Config) : bool :=
  mounted c && videoShown (render p (session c)).

(** Run a handler body in [c] up to its next [await]. *)
Definition exec (p : Props) (frame : exn + string) (body : Prog) (c : Config) : Config :=
  let (t, r) := advance frame (videoRefCurrent p c) body in
  park r (performAll t c).

Definition unpend (i : nat) (c : Config) : Config :=
  mkConfig (session c) (mounted c) (liveTracks c) (remove_nth i (pending c))
           (timers c) (log c).

Definition untimer (i : nat) (c : Config) : Config :=
  mkConfig (session c) (mounted c) (liveTracks c) (pending c)
           (remove_nth i (timers c)) (log c).

Definition addTracks (o : exn + MediaStream) (c : Config) : Config :=
  match o with
  | inr m => mkConfig (session c) (mounted c) (getTracks m ++ liveTracks c)
                      (pending c) (timers c) (log c)
  | inl _ => c
  end.

Definition setUnmounted (c : Config) : Config :=
  mkConfig (session c) false (liveTracks c) (pending c) (timers c) (log c).

Inductive Event : Type :=
| checkConsent (checked : bool)          (* onCheckedChange of the checkbox *)
| clickContinue                          (* "Fortsätt till skanning" *)
| clickRetry                             (* "Försök igen" *)
| clickCapture (frame : exn + string)    (* "Skanna ansikte"; what the capture yields *)
| clickClose                             (* "Avbryt" and the X *)
| cameraSettles (i : nat) (o : exn + MediaStream)
| fetchSettles (i : nat) (o : exn + Response)
| jsonSettles (i : nat)
| timerFires (i : nat)
| unmount.

Definition noFrame : exn + string :=
  inl (TypeError "Cannot read properties of null (reading 'videoWidth')").

(** The step function; [None] when the event cannot occur in [c]: a control
    that is not rendered or is disabled, a promise or timer that is not
    there.  The page has [navigator.mediaDevices]; [fireIn] below covers the
    page that has not. *)
Definition fire (p : Props) (ev : Event) (c : Config) : option Config :=
  let v := render p (session c) in
  match ev with
  | checkConsent checked =>
      if mounted c && checkboxShown v
      then Some (exec p noFrame (setConsentChecked checked ;; Ret) c) else None
  | clickContinue =>
      if mounted c && continueEnabled v
      then Some (exec p noFrame (handleConsentAccepted (session c)) c) else None
  | clickRetry =>
      if mounted c && retryOffered v
      then Some (exec p noFrame startCamera c) else None
  | clickCapture frame =>
      if mounted c && captureEnabled v
      then Some (exec p frame (captureAndScanFace p) c) else None
  | clickClose =>
      if mounted c then Some (exec p noFrame (onClose ;; Ret) c) else None
  | cameraSettles i o =>
      match nth_error (pending c) i with
      | Some (awaitingCamera _ k) => Some (exec p noFrame (k o) (addTracks o (unpend i c)))
      | _ => None
      end
  | fetchSettles i o =>
      match nth_error (pending c) i with
      | Some (awaitingFetch _ k) => Some (exec p noFrame (k o) (unpend i c))
      | _ => None
      end
  | jsonSettles i =>
      match nth_error (pending c) i with
      | Some (awaitingJson r k) => Some (exec p noFrame (k (json r)) (unpend i c))
      | _ => None
      end
  | timerFires i =>
      match nth_error (timers c) i with
      | Some (callOnAutoCheckIn, _) => Some (exec p noFrame (onAutoCheckIn ;; Ret) (untimer i c))
      | None => None
      end
  | unmount =>
      if mounted c then Some (setUnmounted (exec p noFrame effectCleanup c)) else None
  end.

Fixpoint fireAll (p : Props) (evs : list Event) (c : Config) : option Config :=
  match evs with
  | [] => Some c
  | ev :: rest =>
      match fire p ev c with
      | Some c' => fireAll p rest c'
      | None => None
      end
  end.

Inductive reachable (p : Props) : Config -> Prop :=
| reach_init : reachable p initialConfig
| reach_fire c ev c' : reachable p c -> fire p ev c = Some c' -> reachable p c'.

Open Scope list_scope.

(** ** How a scan can end *)

(** The ways an invocation can fail: an exception while the frame is captured,
    a rejected [fetch], a body that does not parse, a body whose [status]
    cannot be read, and a [status] other than ["success"]. *)
Inductive ScanFailure (env : Env) : Prop :=
| frame_throws e :
    env_frame env = inl e -> ScanFailure env
| fetch_rejects e :
    env_fetch env = inl e -> ScanFailure env
| json_rejects r e :
    env_fetch env = inr r -> json r = inl e -> ScanFailure env
| status_unreadable r data e :
    env_fetch env = inr r -> json r = inr data ->
    get_member data "status" = inl e -> ScanFailure env
| status_not_success r data st :
    env_fetch env = inr r -> json r = inr data ->
    get_member data "status" = inr st -> st <> JStr "success" ->
    ScanFailure env.

(** The service accepted the scan and returned [face_id]. *)
Definition ScanSuccess (env : Env) (face_id : jsval) : Prop :=
  exists img r data,
    env_frame env = inr img /\ env_fetch env = inr r /\ json r = inr data /\
    get_member data "status" = inr (JStr "success") /\
    get_member data "face_id" = inr face_id.

Definition failedScanTrace (t : list effect) : Prop :=
  (exists e, t = [console_error "Fel vid ansiktsskanning:" e;
                  toast_error "Kunde inte skanna ansikte. Försök igen."]) \/
  (exists data e, t = [console_log "Scan response:" data;
                       console_error "Fel vid ansiktsskanning:" e;
                       toast_error "Kunde inte skanna ansikte. Försök igen."]) \/
  (exists data, t = [console_log "Scan response:" data;
                     toast_error "Kunde inte spara ansikte och uppgifter."]).

Definition acceptedScanTrace (face_id : jsval) (t : list effect) : Prop :=
  exists data, t = [console_log "Scan response:" data;
                    setScannedFaceId face_id;
                    toast_success "Ansikte och personuppgifter sparade!";
                    setTimeout callOnAutoCheckIn 1000].

(** The timeouts a trace arms. *)
Definition armedTimeouts (t : list effect) : list (timerCallback * nat) :=
  flat_map (fun e => match e with
                     | setTimeout cb ms => [(cb, ms)]
                     | _ => []
                     end) t.

(** Case analysis on what the outside answers, as far as the goal asks. *)
Ltac env_cases :=
  repeat (simpl;
          match goal with
          | |- context [env_camera ?env] => destruct (env_camera env)
          | |- context [env_videoRef ?env] => destruct (env_videoRef env)
          | |- context [env_frame ?env] => destruct (env_frame env)
          | |- context [env_fetch ?env] => destruct (env_fetch env)
          end);
  simpl.

(** ** What an invocation asks of the platform *)

(** The encodings an invocation asks the canvas for. *)
Fixpoint frameEncodings (env : Env) (p : Prog) : list string :=
  match p with
  | Ret | Throw _ => []
  | Do _ k => frameEncodings env k
  | GetUserMedia _ k => frameEncodings env (k (env_camera env))
  | Fetch _ k => frameEncodings env (k (env_fetch env))
  | ResponseJson r k => frameEncodings env (k (json r))
  | CaptureFrame mime k => mime :: frameEncodings env (k (env_frame env))
  | VideoRefCurrent k => frameEncodings env (k (env_videoRef env))
  end.

Definition jsonObjectOf (n c v t : string) : jsval :=
  JObj [("name", JStr n); ("company", JStr c); ("visiting", JStr v);
        ("visitorType", JStr t)].

(** ** The invariant of the event loop *)

Definition cameraWaiting (w : Suspended) : bool :=
  match w with
  | awaitingCamera _ _ => true
  | _ => false
  end.

Definition scanWaiting (w : Suspended) : bool := negb (cameraWaiting w).

(** The submissions in flight: invocations of [captureAndScanFace] that wait
    for [fetch] or for the response body. *)
Definition scansInFlight (c : Config) : nat :=
  List.length (filter scanWaiting (pending c)).

(** The suspensions the handlers give rise to: [startCamera] at
    [getUserMedia], [captureAndScanFace] at [fetch], and at
    [response.json()] once the [fetch] has resolved. *)
Inductive spawned (p : Props) : Suspended -> Prop :=
| spawned_camera c k :
    startCamera = GetUserMedia c k ->
    spawned p (awaitingCamera c k)
| spawned_fetch img videoRef t req k :
    advance (inr img) videoRef (captureAndScanFace p) =
      (t, suspended (awaitingFetch req k)) ->
    spawned p (awaitingFetch req k)
| spawned_json req k0 r videoRef t r' k :
    spawned p (awaitingFetch req k0) ->
    advance noFrame videoRef (k0 (inr r)) = (t, suspended (awaitingJson r' k)) ->
    spawned p (awaitingJson r' k).

Record Inv (p : Props) (c : Config) : Prop := mkInv {
  inv_step : currentStep (session c) <> completed;
  inv_stream : stream (session c) <> None ->
               currentStep (session c) = scanning /\
               hasPermission (session c) <> None;
  inv_pending : Forall (spawned p) (pending c);
  inv_camera : Exists (fun w => cameraWaiting w = true) (pending c) ->
               currentStep (session c) = scanning;
  inv_scans : scansInFlight c <= if isScanning (session c) then 1 else 0;
  inv_timers : Forall (fun tm => tm = (callOnAutoCheckIn, 1000)) (timers c)
}.

(** ** Sample inputs *)

Definition demoProps : Props := mkProps "Ada" None.
Definition demoStream : MediaStream := mkStream 1 [7; 8].
Definition demoFrame : string := "data:image/jpeg;base64,/9j/4AAQ".

(** The camera is refused; the service answers [{ status: "error" }]. *)
Definition rejectingEnv : Env :=
  {| env_camera := inl (Error "NotAllowedError" "Permission denied");
     env_fetch := inr (mkResponse 200 (inr (JObj [("status", JStr "error")])));
     env_frame := inr "data:image/jpeg;base64,/9j/4AAQ";
     env_videoRef := true |}.

Definition scanningSession (m : MediaStream) : Session :=
  {| currentStep := scanning; isScanning := false; stream := Some m;
     hasPermission := Some true; consentChecked := true;
     scannedFaceId := JStr "" |}.

(** The visitor consents and the platform grants the camera. *)
Definition cameraGranted : list Event :=
  [checkConsent true; clickContinue; cameraSettles 0 (inr demoStream)].

Definition grantedConfig : Config :=
  {| session := scanningSession demoStream; mounted := true;
     liveTracks := [7; 8]; pending := []; timers := [];
     log := [setConsentChecked true; setCurrentStep scanning;
             setStream (Some demoStream); setHasPermission true;
             set_srcObject demoStream] |}.

Definition awaitingCameraSession : Session :=
  {| currentStep := scanning; isScanning := false; stream := None;
     hasPermission := None; consentChecked := true; scannedFaceId := JStr "" |}.

Definition acceptingResponse : Response :=
  mkResponse 200 (inr (JObj [("status", JStr "success"); ("face_id", JStr "abc123")])).

(** Consent, camera granted, capture, and the service answers
    [{ status: "success", face_id: "abc123" }]. *)
Definition successfulScan : list Event :=
  cameraGranted ++
  [clickCapture (inr demoFrame); fetchSettles 0 (inr acceptingResponse); jsonSettles 0].

(** ** Traces *)

(** A trace without [track.stop()]. *)
Definition stopsNothing (t : list effect) : Prop :=
  forall x, ~ In (track_stop x) t.

(** Closes [stopsNothing t] for an explicit trace [t]. *)
Ltac stops_nothing :=
  let x := fresh "x" in
  let H := fresh "H" in
  intros x H; simpl in H; intuition discriminate.

(** The calls of the [onAutoCheckIn] prop. *)
Definition isAutoCheckIn (e : effect) : bool :=
  match e with
  | onAutoCheckIn => true
  | _ => false
  end.

(** ** What one event emits *)

(** Submissions an event starts and ends. *)
Definition scanStarts (ev : Event) : nat :=
  match ev with
  | clickCapture (inr _) => 1
  | _ => 0
  end.

Definition scanEnds (ev : Event) : nat :=
  match ev with
  | fetchSettles _ (inl _) | jsonSettles _ => 1
  | _ => 0
  end.

(** The effects an event can give rise to, handler by handler. *)
Inductive emits : Event -> list effect -> Prop :=
| emits_checkConsent b :
    emits (checkConsent b) [setConsentChecked b]
| emits_clickContinue :
    emits clickContinue [setCurrentStep scanning]
| emits_clickRetry :
    emits clickRetry []
| emits_capture_sent img :
    emits (clickCapture (inr img)) [setIsScanning true]
| emits_capture_thrown e :
    emits (clickCapture (inl e))
      [setIsScanning true;
       console_error "Fel vid ansiktsskanning:" e;
       toast_error "Kunde inte skanna ansikte. Försök igen.";
       setIsScanning false]
| emits_clickClose :
    emits clickClose [onClose]
| emits_camera_denied i e :
    emits (cameraSettles i (inl e))
      [console_error "Kunde inte starta kamera:" e;
       setHasPermission false;
       toast_error "Kunde inte komma åt kameran. Kontrollera behörigheter."]
| emits_camera_granted i m (videoRef : bool) :
    emits (cameraSettles i (inr m))
      (setStream (Some m) :: setHasPermission true ::
         (if videoRef then [set_srcObject m] else []))
| emits_fetch_rejected i e :
    emits (fetchSettles i (inl e))
      [console_error "Fel vid ansiktsskanning:" e;
       toast_error "Kunde inte skanna ansikte. Försök igen.";
       setIsScanning false]
| emits_fetch_resolved i r :
    emits (fetchSettles i (inr r)) []
| emits_json_failed i mid :
    failedScanTrace mid ->
    emits (jsonSettles i) (mid ++ [setIsScanning false])
| emits_json_accepted i face_id mid :
    acceptedScanTrace face_id mid ->
    emits (jsonSettles i) (mid ++ [setIsScanning false])
| emits_timerFires i :
    emits (timerFires i) [onAutoCheckIn]
| emits_unmount :
    emits unmount [].

(** The state of a flow in which nothing but the checkbox and the close
    buttons has been used. *)
Definition untouched (c : Config) : Prop :=
  pending c = [] /\ timers c = [] /\ liveTracks c = [] /\
  stream (session c) = None /\ hasPermission (session c) = None /\
  isScanning (session c) = false /\ scannedFaceId (session c) = JStr "" /\
  Forall (fun e => e = onClose \/ exists b, e = setConsentChecked b) (log c).

(** The success toasts of a log. *)
Definition isSuccessToast (e : effect) : bool :=
  match e with
  | toast_success _ => true
  | _ => false
  end.

(** The state [stopCamera] leaves when the render of [s] runs it. *)
Definition released (env : Env) (s : Session) : Session :=
  commit (trace env (stopCamera s)) s.

(** The configuration a sequence of events leads to from the mount. *)
Definition afterEvents (p : Props) (evs : list Event) : Config :=
  match fireAll p evs initialConfig with
  | Some c => c
  | None => initialConfig
  end.

Definition denial : exn := Error "NotAllowedError" "Permission denied".

(** Consent given, camera request pending. *)
Definition cameraRequested : list Event := [checkConsent true; clickContinue].

(** The camera was refused and the visitor asked again. *)
Definition retryRequested : list Event :=
  cameraRequested ++ [cameraSettles 0 (inl denial); clickRetry].

(** A capture was sent, its response arrived, and the flow was closed before
    the body was read. *)
Definition closedWhileScanning : list Event :=
  cameraGranted ++
  [clickCapture (inr demoFrame); fetchSettles 0 (inr acceptingResponse); unmount].

(** The service accepts the scan but returns no [face_id]. *)
Definition idlessEnv : Env :=
  mkEnv (inl denial) (inr (mkResponse 200 (inr (JObj [("status", JStr "success")]))))
        (inr demoFrame) true.

(** ** The frame capture (lines 77-85)

    What the [CaptureFrame] node is answered with, read off the page. *)








(** ** A page without [navigator.mediaDevices]

    In an insecure context [navigator.mediaDevices] is undefined and line 39
    throws before any call is made; the [catch] block then runs inside the
    click. *)

Definition mediaDevicesMissing : exn :=
  TypeError "Cannot read properties of undefined (reading 'getUserMedia')".

(** [startCamera] (lines 37-57) in a page where [navigator.mediaDevices] is
    defined ([true]) or not ([false]). *)
Definition startCameraIn (mediaDevices : bool) : Prog :=
  try_catch
    (if mediaDevices then
       GetUserMedia cameraConstraints (or_throw (fun mediaStream =>
         setStream (Some mediaStream) ;;
         setHasPermission true ;;
         VideoRefCurrent (fun present =>
           if present then set_srcObject mediaStream ;; Ret else Ret)))
     else Throw mediaDevicesMissing)
    (fun error =>
       console_error "Kunde inte starta kamera:" error ;;
       setHasPermission false ;;
       toast_error "Kunde inte komma åt kameran. Kontrollera behörigheter." ;;
       Ret).

(** [handleConsentAccepted] (lines 31-35) in such a page. *)
Definition handleConsentAcceptedIn (mediaDevices : bool) (s : Session) : Prog :=
  if negb (consentChecked s) then Ret
  else setCurrentStep scanning ;; startCameraIn mediaDevices.

(** What the [catch] block of [startCamera] does with [error]. *)
Definition cameraRefused (error : exn) : list effect :=
  [console_error "Kunde inte starta kamera:" error;
   setHasPermission false;
   toast_error "Kunde inte komma åt kameran. Kontrollera behörigheter."].

(** The step function in such a page: the two buttons that run
    [startCamera] run it there, every other event is as in [fire]. *)
Definition fireIn (mediaDevices : bool) (p : Props) (ev : Event) (c : Config)
  : option Config :=
  let v := render p (session c) in
  match ev with
  | clickContinue =>
      if mounted c && continueEnabled v
      then Some (exec p noFrame (handleConsentAcceptedIn mediaDevices (session c)) c)
      else None
  | clickRetry =>
      if mounted c && retryOffered v
      then Some (exec p noFrame (startCameraIn mediaDevices) c) else None
  | _ => fire p ev c
  end.

Fixpoint fireAllIn (mediaDevices : bool) (p : Props) (evs : list Event) (c : Config)
  : option Config :=
  match evs with
  | [] => Some c
  | ev :: rest =>
      match fireIn mediaDevices p ev c with
      | Some c' => fireAllIn mediaDevices p rest c'
      | None => None
      end
  end.

(** The dialog is up because the page has no [navigator.mediaDevices]. *)
Definition refusedConfig : Config :=
  match fireAllIn false demoProps [checkConsent true; clickContinue] initialConfig with
  | Some c => c
  | None => initialConfig
  end.

(** * Laws of the control operators *)

Lemma run_Do env e k :
  run env (Do e k) = (e :: fst (run env k), snd (run env k)).
Proof. simpl. destruct (run env k); reflexivity. Qed.

Lemma run_seq env p q :
  run env (seq p q) =
  match snd (run env p) with
  | normal => (fst (run env p) ++ fst (run env q), snd (run env q))
  | thrown e => (fst (run env p), thrown e)
  end.
Proof.
  induction p as [ | e | e k IH | c k IH | r k IH | r k IH | m k IH | k IH ];
    simpl; try apply IH.
  - destruct (run env q); reflexivity.
  - reflexivity.
  - rewrite IH. destruct (run env k) as [t c]; simpl. destruct c; reflexivity.
Qed.

Lemma run_try_catch env p h :
  run env (try_catch p h) =
  match snd (run env p) with
  | normal => (fst (run env p), normal)
  | thrown e => (fst (run env p) ++ fst (run env (h e)), snd (run env (h e)))
  end.
Proof.
  induction p as [ | e | e k IH | c k IH | r k IH | r k IH | m k IH | k IH ];
    simpl; try apply IH.
  - reflexivity.
  - destruct (run env (h e)); reflexivity.
  - rewrite IH. destruct (run env k) as [t c]; simpl. destruct c; reflexivity.
Qed.

Lemma run_try_finally env p f :
  run env (try_finally p f) =
  (fst (run env p) ++ fst (run env f),
   match snd (run env f), snd (run env p) with
   | thrown e', _ => thrown e'
   | normal, c => c
   end).
Proof.
  induction p as [ | e | e k IH | c k IH | r k IH | r k IH | m k IH | k IH ];
    simpl; try apply IH.
  - destruct (run env f) as [t c]; simpl. destruct c; reflexivity.
  - rewrite run_seq. simpl. rewrite app_nil_r.
    destruct (run env f) as [t c]; simpl. destruct c; reflexivity.
  - rewrite IH. destruct (run env k) as [t c]; simpl. reflexivity.
Qed.

(** Committing a trace, one setter at a time. *)
Lemma commit_app t1 t2 s : commit (t1 ++ t2) s = commit t2 (commit t1 s).
Proof. unfold commit. apply fold_left_app. Qed.

Lemma commit_cons e t s : commit (e :: t) s = commit t (apply_setter e s).
Proof. reflexivity. Qed.

(** * One invocation of [captureAndScanFace] *)

Lemma strict_eq_str_true v s : strict_eq_str v s = true <-> v = JStr s.
Proof.
  destruct v; simpl; try (split; [discriminate | discriminate]).
  rewrite String.eqb_eq. split; [ intros ->; reflexivity | intros [= ->]; reflexivity ].
Qed.

Lemma strict_eq_str_false v s : strict_eq_str v s = false <-> v <> JStr s.
Proof.
  rewrite <- strict_eq_str_true. destruct (strict_eq_str v s); split; congruence.
Qed.

Lemma get_member_face_id_total data st :
  get_member data "status" = inr st -> exists v, get_member data "face_id" = inr v.
Proof. destruct data; simpl; try discriminate; eauto. Qed.

(** The [catch] block ends normally, so the [try]/[catch] does. *)
Lemma scanAttempt_caught p env :
  snd (run env (try_catch (scanAttempt p) scanCatch)) = normal.
Proof.
  rewrite run_try_catch.
  destruct (snd (run env (scanAttempt p))); reflexivity.
Qed.

Lemma scanAttempt_cases p env :
  let mid := fst (run env (try_catch (scanAttempt p) scanCatch)) in
  failedScanTrace mid \/ exists face_id, acceptedScanTrace face_id mid.
Proof.
  rewrite run_try_catch. unfold scanAttempt, handleScanResponse, failedScanTrace. simpl.
  destruct (env_frame env) as [e | img]; simpl; [ eauto | ].
  destruct (env_fetch env) as [e | r]; simpl; [ eauto | ].
  destruct (json r) as [e | data]; simpl; [ eauto | ].
  destruct (get_member data "status") as [e | st]; simpl; [ eauto 6 | ].
  destruct (strict_eq_str st "success"); simpl; [ | eauto 6 ].
  destruct (get_member data "face_id") as [e | fid]; simpl; [ eauto 6 | ].
  right. exists fid, data. reflexivity.
Qed.

Lemma scanAttempt_failure p env :
  ScanFailure env ->
  failedScanTrace (fst (run env (try_catch (scanAttempt p) scanCatch))).
Proof.
  intros H. rewrite run_try_catch.
  unfold scanAttempt, handleScanResponse, failedScanTrace. simpl.
  destruct H as [e H | e H | r e H1 H2 | r data e H1 H2 H3 | r data st H1 H2 H3 H4].
  - rewrite H; simpl; eauto.
  - destruct (env_frame env); simpl; [ eauto | ]. rewrite H; simpl; eauto.
  - destruct (env_frame env); simpl; [ eauto | ].
    rewrite H1; simpl. rewrite H2; simpl. eauto.
  - destruct (env_frame env); simpl; [ eauto | ].
    rewrite H1; simpl. rewrite H2; simpl. rewrite H3; simpl. eauto 6.
  - destruct (env_frame env); simpl; [ eauto | ].
    rewrite H1; simpl. rewrite H2; simpl. rewrite H3; simpl.
    apply strict_eq_str_false in H4. rewrite H4. simpl. eauto 6.
Qed.

Lemma scanAttempt_success p env face_id :
  ScanSuccess env face_id ->
  acceptedScanTrace face_id (fst (run env (try_catch (scanAttempt p) scanCatch))).
Proof.
  intros (img & r & data & Hf & Hr & Hj & Hs & Hi). rewrite run_try_catch.
  unfold scanAttempt, handleScanResponse, acceptedScanTrace. simpl.
  rewrite Hf; simpl. rewrite Hr; simpl. rewrite Hj; simpl. rewrite Hs; simpl.
  rewrite Hi; simpl. eauto.
Qed.

(** The whole invocation: [setIsScanning(true)], the attempt, and
    [setIsScanning(false)] from the [finally] block. *)
Lemma run_captureAndScanFace p env :
  run env (captureAndScanFace p) =
  (setIsScanning true ::
     fst (run env (try_catch (scanAttempt p) scanCatch)) ++ [setIsScanning false],
   normal).
Proof.
  unfold captureAndScanFace. rewrite run_Do, run_try_finally.
  rewrite scanAttempt_caught. reflexivity.
Qed.

(** A failed attempt calls no state setter and arms no timer. *)
Lemma failedScanTrace_inert t :
  failedScanTrace t ->
  (forall s, commit t s = s) /\
  (forall v, ~ In (setScannedFaceId v) t) /\
  (forall b, ~ In (setIsScanning b) t) /\
  (forall cb ms, ~ In (setTimeout cb ms) t) /\
  (exists msg, In (toast_error msg) t).
Proof.
  intros [(e & ->) | [(data & e & ->) | (data & ->)]]; simpl;
    (repeat split;
     [ intros v H; intuition discriminate
     | intros b H; intuition discriminate
     | intros cb ms H; intuition discriminate
     | eexists; eauto ]).
Qed.

Lemma acceptedScanTrace_effect face_id t :
  acceptedScanTrace face_id t ->
  (forall s, commit t s = apply_setter (setScannedFaceId face_id) s) /\
  (forall b, ~ In (setIsScanning b) t) /\
  armedTimeouts t = [(callOnAutoCheckIn, 1000)].
Proof.
  intros (data & ->); simpl. repeat split.
  intros b H; intuition discriminate.
Qed.

(** C4. Every invocation of [captureAndScanFace], whatever the frame capture,
    the network call and the service answer (success, rejection or an
    exception), calls [setIsScanning(true)] first and [setIsScanning(false)]
    last, with no other [setIsScanning] in between; it ends normally, and
    the committed [isScanning] is [false]. *)
Theorem captureAndScanFace_resets_isScanning (p : Props) (env : Env) :
  exists mid,
    trace env (captureAndScanFace p) =
      setIsScanning true :: mid ++ [setIsScanning false] /\
    (forall b, ~ In (setIsScanning b) mid) /\
    outcome env (captureAndScanFace p) = normal /\
    forall s,
      isScanning (apply_setter (setIsScanning true) s) = true /\
      isScanning (commit (trace env (captureAndScanFace p)) s) = false.
Proof.
  unfold trace, outcome. rewrite run_captureAndScanFace. cbn [fst snd].
  exists (fst (run env (try_catch (scanAttempt p) scanCatch))).
  split; [ reflexivity | ]. split.
  - destruct (scanAttempt_cases p env) as [H | [fid H]].
    + apply failedScanTrace_inert in H. tauto.
    + apply acceptedScanTrace_effect in H. tauto.
  - split; [ reflexivity | ]. intros s. split; [ reflexivity | ].
    rewrite commit_cons, commit_app. reflexivity.
Qed.

(** C3. When an invocation in the scanning step fails (an exception during
    capture, a rejected [fetch], an unreadable body, or a [status] other than
    ["success"]), the step is still scanning, [scannedFaceId] is unchanged and
    never set, [isScanning] is [false], nothing but [isScanning] was touched,
    an error toast was shown, and the invocation ends normally: no exception
    leaves the handler. *)
Theorem captureAndScanFace_failure (p : Props) (env : Env) (s : Session) :
  currentStep s = scanning ->
  ScanFailure env ->
  let t := trace env (captureAndScanFace p) in
  currentStep (commit t s) = scanning /\
  scannedFaceId (commit t s) = scannedFaceId s /\
  (forall v, ~ In (setScannedFaceId v) t) /\
  isScanning (commit t s) = false /\
  commit t s = apply_setter (setIsScanning false) s /\
  (exists msg, In (toast_error msg) t) /\
  outcome env (captureAndScanFace p) = normal.
Proof.
  intros Hstep Hfail. unfold trace, outcome. rewrite run_captureAndScanFace. cbn [fst snd].
  apply (scanAttempt_failure p) in Hfail.
  apply failedScanTrace_inert in Hfail.
  destruct Hfail as (Hc & Hid & _ & _ & (msg & Hmsg)).
  assert (Hfinal : commit (setIsScanning true ::
                     fst (run env (try_catch (scanAttempt p) scanCatch)) ++
                     [setIsScanning false]) s = apply_setter (setIsScanning false) s).
  { rewrite commit_cons, commit_app, Hc. reflexivity. }
  cbv zeta. rewrite Hfinal. simpl. repeat split; auto.
  - intros v [H | H]; [ discriminate | ].
    apply in_app_or in H. destruct H as [H | [H | []]]; [ | discriminate ].
    exact (Hid v H).
  - exists msg. right. apply in_or_app. left. exact Hmsg.
Qed.

Lemma captureAndScanFace_failure_witness :
  let p := mkProps "Ada" None in
  let s := scanningSession (mkStream 1 [7]) in
  let t := trace rejectingEnv (captureAndScanFace p) in
  currentStep s = scanning /\ ScanFailure rejectingEnv /\
  currentStep (commit t s) = scanning /\
  scannedFaceId (commit t s) = scannedFaceId s /\
  (forall v, ~ In (setScannedFaceId v) t) /\
  isScanning (commit t s) = false /\
  commit t s = apply_setter (setIsScanning false) s /\
  (exists msg, In (toast_error msg) t) /\
  outcome rejectingEnv (captureAndScanFace p) = normal.
Proof.
  assert (Hf : ScanFailure rejectingEnv).
  { apply status_not_success
      with (r := mkResponse 200 (inr (JObj [("status", JStr "error")])))
           (data := JObj [("status", JStr "error")]) (st := JStr "error");
      [ reflexivity | reflexivity | reflexivity | discriminate ]. }
  split; [ reflexivity | ]. split; [ exact Hf | ].
  apply (captureAndScanFace_failure (mkProps "Ada" None) rejectingEnv
           (scanningSession (mkStream 1 [7]))); [ reflexivity | exact Hf ].
Defined.

(** * Consent *)

(** C2. In the consent step, [handleConsentAccepted] moves the step to
    scanning and issues the camera request exactly when the checkbox is
    checked; unchecked, it does nothing at all (no effect, no state change, no
    camera request), and the continue button is disabled. *)
Theorem handleConsentAccepted_gate (p : Props) (env : Env) (s : Session) :
  currentStep s = consent ->
  let t := trace env (handleConsentAccepted s) in
  (currentStep (commit t s) = scanning <-> consentChecked s = true) /\
  (cameraRequests env (handleConsentAccepted s) = [cameraConstraints]
     <-> consentChecked s = true) /\
  (consentChecked s = false ->
     t = [] /\ commit t s = s /\
     cameraRequests env (handleConsentAccepted s) = [] /\
     continueEnabled (render p s) = false) /\
  continueEnabled (render p s) = consentChecked s.
Proof.
  intros Hstep. destruct s as [st sc sm hp cc fid]; simpl in Hstep; subst st.
  unfold trace, handleConsentAccepted, startCamera, render; simpl.
  rewrite andb_false_r.
  destruct cc; env_cases; repeat split; try discriminate; try reflexivity.
Qed.

Lemma handleConsentAccepted_gate_witness :
  let p := mkProps "Ada" None in
  let s := apply_setter (setConsentChecked true) initialSession in
  let t := trace rejectingEnv (handleConsentAccepted s) in
  currentStep s = consent /\
  (currentStep (commit t s) = scanning <-> consentChecked s = true) /\
  (cameraRequests rejectingEnv (handleConsentAccepted s) = [cameraConstraints]
     <-> consentChecked s = true) /\
  (consentChecked s = false ->
     t = [] /\ commit t s = s /\
     cameraRequests rejectingEnv (handleConsentAccepted s) = [] /\
     continueEnabled (render p s) = false) /\
  continueEnabled (render p s) = consentChecked s.
Proof.
  split; [ reflexivity | ].
  apply (handleConsentAccepted_gate (mkProps "Ada" None) rejectingEnv
           (apply_setter (setConsentChecked true) initialSession)).
  reflexivity.
Defined.

(** * The submission *)

(** An invocation asks for one JPEG frame and, when it gets one, sends
    exactly one request: a POST to [/api/scan-face] with a JSON content type,
    whose body holds the captured data URL as [image] and, as [visitorInfo],
    the supplied visitor record or else
    [{ name: visitorName, company: "", visiting: "", visitorType: "regular" }];
    without a frame nothing is sent.  A [status] other than ["success"] is a
    failure: the error toast is shown, no face id is stored and no check-in
    is scheduled. *)
Theorem captureAndScanFace_request (p : Props) (env : Env) :
  frameEncodings env (captureAndScanFace p) = ["image/jpeg"] /\
  requests env (captureAndScanFace p) =
    match env_frame env with
    | inr img => [scanRequest p img]
    | inl _ => []
    end /\
  (forall img,
     method (scanRequest p img) = "POST" /\
     url (scanRequest p img) = ("http://localhost:5000" ++ "/api/scan-face")%string /\
     headers (scanRequest p img) = [("Content-Type", "application/json")] /\
     (forall vi, visitorInfo p = Some vi ->
        body (scanRequest p img) =
          JObj [("image", JStr img);
                ("visitorInfo",
                 jsonObjectOf (name vi) (company vi) (visiting vi) (visitorType vi))]) /\
     (visitorInfo p = None ->
        body (scanRequest p img) =
          JObj [("image", JStr img);
                ("visitorInfo", jsonObjectOf (visitorName p) "" "" "regular")])) /\
  (forall img r data st,
     env_frame env = inr img -> env_fetch env = inr r -> json r = inr data ->
     get_member data "status" = inr st -> st <> JStr "success" ->
     trace env (captureAndScanFace p) =
       [setIsScanning true;
        console_log "Scan response:" data;
        toast_error "Kunde inte spara ansikte och uppgifter.";
        setIsScanning false]).
Proof.
  split; [ | split; [ | split ] ].
  - unfold captureAndScanFace, scanAttempt, handleScanResponse. env_cases; try reflexivity.
    destruct (json r) as [e | data]; simpl; [ reflexivity | ].
    destruct (get_member data "status") as [e | st]; simpl; [ reflexivity | ].
    destruct (strict_eq_str st "success"); simpl; [ | reflexivity ].
    destruct (get_member data "face_id"); reflexivity.
  - unfold captureAndScanFace, scanAttempt, handleScanResponse. env_cases; try reflexivity.
    destruct (json r) as [e | data]; simpl; [ reflexivity | ].
    destruct (get_member data "status") as [e | st]; simpl; [ reflexivity | ].
    destruct (strict_eq_str st "success"); simpl; [ | reflexivity ].
    destruct (get_member data "face_id"); reflexivity.
  - intros img. unfold scanRequest, visitorInfoOrDefault, visitorInfoObject, jsonObjectOf.
    simpl. repeat split.
    + intros vi ->. reflexivity.
    + intros ->. reflexivity.
  - intros img r data st Hf Hr Hj Hs Hne.
    apply strict_eq_str_false in Hne.
    unfold trace. rewrite run_captureAndScanFace, run_try_catch.
    unfold scanAttempt, handleScanResponse. simpl.
    rewrite Hf; simpl. rewrite Hr; simpl. rewrite Hj; simpl. rewrite Hs; simpl.
    rewrite Hne. reflexivity.
Qed.

Lemma captureAndScanFace_request_witness :
  trace rejectingEnv (captureAndScanFace (mkProps "Ada" None)) =
    [setIsScanning true;
     console_log "Scan response:" (JObj [("status", JStr "error")]);
     toast_error "Kunde inte spara ansikte och uppgifter.";
     setIsScanning false] /\
  requests rejectingEnv (captureAndScanFace (mkProps "Ada" None)) =
    [mkRequest "http://localhost:5000/api/scan-face" "POST"
       [("Content-Type", "application/json")]
       (JObj [("image", JStr "data:image/jpeg;base64,/9j/4AAQ");
              ("visitorInfo", jsonObjectOf "Ada" "" "" "regular")])].
Proof.
  destruct (captureAndScanFace_request (mkProps "Ada" None) rejectingEnv)
    as (_ & Hreq & _ & Hfail).
  split; [ | exact Hreq ].
  apply (Hfail "data:image/jpeg;base64,/9j/4AAQ"
               (mkResponse 200 (inr (JObj [("status", JStr "error")])))
               (JObj [("status", JStr "error")]) (JStr "error"));
    [ reflexivity | reflexivity | reflexivity | reflexivity | discriminate ].
Defined.

(** ** The image sent *)






(** * Releasing the camera *)

Lemma run_forEach {A : Type} env (xs : list A) (eff : A -> effect) k :
  run env (forEach xs eff k) = (map eff xs ++ fst (run env k), snd (run env k)).
Proof.
  induction xs as [ | x xs IH ]; simpl.
  - destruct (run env k); reflexivity.
  - rewrite IH. reflexivity.
Qed.

Lemma trace_stopCamera env s :
  trace env (stopCamera s) =
  match stream s with
  | Some m => map track_stop (getTracks m) ++ [setStream None]
  | None => []
  end.
Proof.
  unfold trace, stopCamera. destruct (stream s) as [m | ]; [ | reflexivity ].
  rewrite run_forEach. reflexivity.
Qed.

Lemma commit_track_stops ts s : commit (map track_stop ts) s = s.
Proof. induction ts as [ | t ts IH ]; simpl; [ reflexivity | exact IH ]. Qed.

Lemma commit_stopCamera env s :
  commit (trace env (stopCamera s)) s =
  match stream s with
  | Some _ => apply_setter (setStream None) s
  | None => s
  end.
Proof.
  rewrite trace_stopCamera. destruct (stream s); [ | reflexivity ].
  rewrite commit_app, commit_track_stops. reflexivity.
Qed.

(** [stopCamera], run by the render that holds the stream, stops each of its
    tracks and clears the handle; run again by the next render it does
    nothing. *)
Lemma stopCamera_idempotent env env' s :
  let s' := commit (trace env (stopCamera s)) s in
  stream s' = None /\
  (forall m, stream s = Some m ->
     trace env (stopCamera s) = map track_stop (getTracks m) ++ [setStream None]) /\
  trace env' (stopCamera s') = [] /\
  commit (trace env' (stopCamera s')) s' = s'.
Proof.
  cbv zeta. rewrite commit_stopCamera, !trace_stopCamera.
  destruct (stream s) as [m | ] eqn:Hs; simpl.
  - repeat split. intros m' [= <-]. reflexivity.
  - rewrite Hs. repeat split. discriminate.
Qed.

(** C10. [stopCamera] touches no cell of the state but [stream]: the step,
    [isScanning], [hasPermission], [consentChecked] and [scannedFaceId] are
    what they were. *)
Theorem stopCamera_frame (env : Env) (s : Session) :
  let s' := commit (trace env (stopCamera s)) s in
  currentStep s' = currentStep s /\
  isScanning s' = isScanning s /\
  hasPermission s' = hasPermission s /\
  consentChecked s' = consentChecked s /\
  scannedFaceId s' = scannedFaceId s /\
  (forall e, In e (trace env (stopCamera s)) ->
     e = setStream None \/ exists t, e = track_stop t).
Proof.
  cbv zeta. rewrite commit_stopCamera, trace_stopCamera.
  destruct (stream s) as [m | ]; simpl; repeat split; try contradiction.
  intros e H. apply in_app_or in H. destruct H as [H | [H | []]].
  - apply in_map_iff in H. destruct H as (t & <- & _). eauto.
  - auto.
Qed.

(** * The event loop: what every reachable configuration satisfies *)

(** ** Bookkeeping lemmas *)

Lemma remove_nth_Forall {A : Type} (P : A -> Prop) i l :
  Forall P l -> Forall P (remove_nth i l).
Proof.
  intros H. revert i. induction H as [ | x l Hx Hl IH ]; intros [ | i ]; simpl;
    auto.
Qed.

Lemma remove_nth_Exists {A : Type} (P : A -> Prop) i l :
  Exists P (remove_nth i l) -> Exists P l.
Proof.
  revert i. induction l as [ | x l IH ]; intros [ | i ]; simpl; intros H; auto.
  inversion H; subst; [ left; assumption | right; eapply IH; eassumption ].
Qed.

Lemma remove_nth_filter_length {A : Type} (f : A -> bool) i l x :
  nth_error l i = Some x ->
  List.length (filter f l) =
  List.length (filter f (remove_nth i l)) + (if f x then 1 else 0).
Proof.
  revert i. induction l as [ | y l IH ]; intros [ | i ]; simpl; try discriminate.
  - intros [= ->]. destruct (f x); simpl; lia.
  - intros H. specialize (IH i H). destruct (f y); simpl; lia.
Qed.

Lemma nth_error_Forall {A : Type} (P : A -> Prop) i l x :
  nth_error l i = Some x -> Forall P l -> P x.
Proof.
  intros H HF. rewrite Forall_forall in HF. apply HF. eapply nth_error_In; eassumption.
Qed.

Lemma nth_error_Exists {A : Type} (P : A -> Prop) i l x :
  nth_error l i = Some x -> P x -> Exists P l.
Proof.
  intros H HP. apply Exists_exists. exists x. split; [ | assumption ].
  eapply nth_error_In; eassumption.
Qed.

Lemma performAll_app t1 t2 c :
  performAll (t1 ++ t2) c = performAll t2 (performAll t1 c).
Proof. unfold performAll. apply fold_left_app. Qed.

Lemma performAll_mounted t c : mounted (performAll t c) = mounted c.
Proof.
  revert c. induction t as [ | e t IH ]; intros c; simpl; [ reflexivity | ].
  rewrite IH. reflexivity.
Qed.

Lemma performAll_pending t c : pending (performAll t c) = pending c.
Proof.
  revert c. induction t as [ | e t IH ]; intros c; simpl; [ reflexivity | ].
  rewrite IH. reflexivity.
Qed.

Lemma performAll_session t c :
  session (performAll t c) =
  if mounted c then commit t (session c) else session c.
Proof.
  revert c. induction t as [ | e t IH ]; intros c; simpl.
  - destruct (mounted c); reflexivity.
  - rewrite IH. simpl. destruct (mounted c); reflexivity.
Qed.

Lemma performAll_timers t c :
  timers (performAll t c) = timers c ++ armedTimeouts t.
Proof.
  revert c. induction t as [ | e t IH ]; intros c; simpl.
  - rewrite app_nil_r. reflexivity.
  - rewrite IH. simpl. destruct e; simpl; rewrite ?app_nil_r, <- ?app_assoc; reflexivity.
Qed.

Lemma performAll_log t c : log (performAll t c) = log c ++ t.
Proof.
  revert c. induction t as [ | e t IH ]; intros c; simpl.
  - rewrite app_nil_r. reflexivity.
  - rewrite IH. simpl. rewrite <- app_assoc. reflexivity.
Qed.

Lemma exec_session p frame body c :
  session (exec p frame body c) =
  if mounted c
  then commit (fst (advance frame (videoRefCurrent p c) body)) (session c)
  else session c.
Proof.
  unfold exec. destruct (advance frame (videoRefCurrent p c) body) as [t r].
  destruct r; simpl; apply performAll_session.
Qed.

Lemma exec_mounted p frame body c : mounted (exec p frame body c) = mounted c.
Proof.
  unfold exec. destruct (advance frame (videoRefCurrent p c) body) as [t r].
  destruct r; simpl; apply performAll_mounted.
Qed.

Lemma exec_pending p frame body c :
  pending (exec p frame body c) =
  pending c ++ match snd (advance frame (videoRefCurrent p c) body) with
               | suspended w => [w]
               | finished _ => []
               end.
Proof.
  unfold exec. destruct (advance frame (videoRefCurrent p c) body) as [t r].
  destruct r; simpl; rewrite performAll_pending; [ rewrite app_nil_r | ]; reflexivity.
Qed.

Lemma exec_timers p frame body c :
  timers (exec p frame body c) =
  timers c ++ armedTimeouts (fst (advance frame (videoRefCurrent p c) body)).
Proof.
  unfold exec. destruct (advance frame (videoRefCurrent p c) body) as [t r].
  destruct r; simpl; apply performAll_timers.
Qed.

Lemma exec_log p frame body c :
  log (exec p frame body c) =
  log c ++ fst (advance frame (videoRefCurrent p c) body).
Proof.
  unfold exec. destruct (advance frame (videoRefCurrent p c) body) as [t r].
  destruct r; simpl; apply performAll_log.
Qed.

(** ** What the suspended handlers do when resumed *)

Lemma spawned_camera_resume p c k :
  spawned p (awaitingCamera c k) ->
  c = cameraConstraints /\
  forall o videoRef,
    advance noFrame videoRef (k o) =
    match o with
    | inl e =>
        ([console_error "Kunde inte starta kamera:" e;
          setHasPermission false;
          toast_error "Kunde inte komma åt kameran. Kontrollera behörigheter."],
         finished normal)
    | inr m =>
        (setStream (Some m) :: setHasPermission true ::
           (if videoRef then [set_srcObject m] else []),
         finished normal)
    end.
Proof.
  intros H. inversion H as [c' k' Heq | | ]; subst.
  unfold startCamera in Heq. simpl in Heq. injection Heq as <- <-.
  split; [ reflexivity | ]. intros [e | m] [ | ]; reflexivity.
Qed.

Lemma spawned_fetch_resume p req k :
  spawned p (awaitingFetch req k) ->
  forall o videoRef,
    match o with
    | inl e =>
        advance noFrame videoRef (k o) =
        ([console_error "Fel vid ansiktsskanning:" e;
          toast_error "Kunde inte skanna ansikte. Försök igen.";
          setIsScanning false],
         finished normal)
    | inr r =>
        exists k', advance noFrame videoRef (k o) = ([], suspended (awaitingJson r k'))
                   /\ spawned p (awaitingJson r k')
    end.
Proof.
  intros H o videoRef. inversion H as [ | img vr t req' k' Heq | ]; subst.
  unfold captureAndScanFace, scanAttempt in Heq. simpl in Heq.
  injection Heq as <- <- <-.
  destruct o as [e | r]; simpl; [ reflexivity | ].
  eexists. split; [ reflexivity | ].
  eapply spawned_json with (r := r) (videoRef := videoRef); [ exact H | ].
  unfold captureAndScanFace, scanAttempt. simpl. reflexivity.
Qed.

Lemma spawned_json_resume p r k :
  spawned p (awaitingJson r k) ->
  forall videoRef,
  exists mid,
    advance noFrame videoRef (k (json r)) = (mid ++ [setIsScanning false], finished normal) /\
    (failedScanTrace mid \/ exists face_id, acceptedScanTrace face_id mid).
Proof.
  intros H videoRef.
  inversion H as [ | | req k0 r0 vr t r' k' Hf Heq ]; subst.
  inversion Hf as [ | img vr' t' req' k'' Heq' | ]; subst.
  unfold captureAndScanFace, scanAttempt in Heq'. simpl in Heq'.
  injection Heq' as <- <- <-. simpl in Heq. injection Heq as <- <- <-.
  unfold failedScanTrace, acceptedScanTrace, handleScanResponse.
  destruct (json r0) as [e | data]; simpl.
  - eexists [_; _]. split; [ reflexivity | eauto ].
  - destruct (get_member data "status") as [e | st]; simpl.
    + eexists [_; _; _]. split; [ reflexivity | eauto 6 ].
    + destruct (strict_eq_str st "success"); simpl.
      * destruct (get_member data "face_id") as [e | fid]; simpl.
        -- eexists [_; _; _]. split; [ reflexivity | eauto 6 ].
        -- eexists [_; _; _; _]. split; [ reflexivity | eauto 6 ].
      * eexists [_; _]. split; [ reflexivity | eauto 6 ].
Qed.

Lemma scans_snoc l w :
  List.length (filter scanWaiting (l ++ [w])) =
  List.length (filter scanWaiting l) + (if scanWaiting w then 1 else 0).
Proof.
  rewrite filter_app, length_app. simpl. destruct (scanWaiting w); reflexivity.
Qed.

Lemma Exists_snoc {A : Type} (P : A -> Prop) l w :
  Exists P (l ++ [w]) -> Exists P l \/ P w.
Proof.
  intros H. apply Exists_app in H. destruct H as [H | H]; [ left; exact H | ].
  inversion H as [ ? ? Hw | ? ? Hn ]; subst; [ right; exact Hw | inversion Hn ].
Qed.

Lemma Forall_snoc {A : Type} (P : A -> Prop) l w :
  Forall P l -> P w -> Forall P (l ++ [w]).
Proof. intros Hl Hw. apply Forall_app. split; [ exact Hl | constructor; [ exact Hw | constructor ] ]. Qed.

(** Rebuilding the invariant after a handler ran in [c0]. *)
Lemma Inv_exec p frame body c0 t r :
  advance frame (videoRefCurrent p c0) body = (t, r) ->
  let s' := if mounted c0 then commit t (session c0) else session c0 in
  let pd := pending c0 ++ match r with suspended w => [w] | finished _ => [] end in
  currentStep s' <> completed ->
  (stream s' <> None -> currentStep s' = scanning /\ hasPermission s' <> None) ->
  Forall (spawned p) pd ->
  (Exists (fun w => cameraWaiting w = true) pd -> currentStep s' = scanning) ->
  List.length (filter scanWaiting pd) <= (if isScanning s' then 1 else 0) ->
  Forall (fun tm => tm = (callOnAutoCheckIn, 1000)) (timers c0 ++ armedTimeouts t) ->
  Inv p (exec p frame body c0).
Proof.
  intros Hadv s' pd H1 H2 H3 H4 H5 H6.
  constructor; unfold scansInFlight;
    rewrite ?exec_session, ?exec_pending, ?exec_timers, Hadv; assumption.
Qed.

Lemma Inv_initial p : Inv p initialConfig.
Proof.
  constructor; simpl.
  - discriminate.
  - intros H; contradiction.
  - constructor.
  - intros H; inversion H.
  - unfold scansInFlight; simpl; lia.
  - constructor.
Qed.

(** Every event preserves the invariant. *)
Lemma Inv_fire p ev c c' :
  Inv p c -> fire p ev c = Some c' -> Inv p c'.
Proof.
  intros [H1 H2 H3 H4 H5 H6] Hf. unfold scansInFlight in H5.
  destruct ev; simpl in Hf.
  - (* checkConsent *)
    destruct (mounted c) eqn:Hm; simpl in Hf; [ | discriminate ].
    destruct (checkboxShown _); [ | discriminate ]. injection Hf as <-.
    eapply Inv_exec; [ reflexivity | .. ]; rewrite ?Hm; simpl;
      rewrite ?app_nil_r; auto.
  - (* clickContinue *)
    destruct (mounted c) eqn:Hm; simpl in Hf; [ | discriminate ].
    destruct (continueEnabled _) eqn:Hv; [ | discriminate ]. injection Hf as <-.
    unfold render in Hv.
    destruct (is_false (hasPermission (session c)) &&
              Step_eqb (currentStep (session c)) scanning); [ discriminate | ].
    destruct (currentStep (session c)) eqn:Hs; simpl in Hv; try discriminate.
    rewrite negb_involutive in Hv.
    eapply Inv_exec.
    { unfold handleConsentAccepted. rewrite Hv. reflexivity. }
    all: rewrite ?Hm; simpl.
    + discriminate.
    + intros Hst. destruct (H2 Hst) as [Hx _]. discriminate.
    + apply Forall_snoc; [ exact H3 | ]. apply spawned_camera. reflexivity.
    + reflexivity.
    + rewrite scans_snoc. simpl. lia.
    + rewrite app_nil_r. exact H6.
  - (* clickRetry *)
    destruct (mounted c) eqn:Hm; simpl in Hf; [ | discriminate ].
    destruct (retryOffered _) eqn:Hv; [ | discriminate ]. injection Hf as <-.
    assert (Hs : currentStep (session c) = scanning).
    { unfold render in Hv.
      destruct (is_false (hasPermission (session c))); simpl in Hv; [ | discriminate ].
      destruct (currentStep (session c)); simpl in Hv; try discriminate. reflexivity. }
    eapply Inv_exec; [ reflexivity | .. ]; rewrite ?Hm; simpl; auto.
    + apply Forall_snoc; [ exact H3 | ]. apply spawned_camera. reflexivity.
    + rewrite scans_snoc. simpl. lia.
    + rewrite app_nil_r. exact H6.
  - (* clickCapture *)
    destruct (mounted c) eqn:Hm; simpl in Hf; [ | discriminate ].
    destruct (captureEnabled _) eqn:Hv; [ | discriminate ]. injection Hf as <-.
    assert (Hs : isScanning (session c) = false).
    { unfold render in Hv.
      destruct (is_false (hasPermission (session c)) &&
                Step_eqb (currentStep (session c)) scanning); [ discriminate | ].
      destruct (currentStep (session c)); simpl in Hv; try discriminate.
      destruct (isScanning (session c)); [ discriminate | reflexivity ]. }
    rewrite Hs in H5.
    destruct frame as [e | img].
    + eapply Inv_exec; [ reflexivity | .. ]; rewrite ?Hm; simpl;
        rewrite ?app_nil_r; auto.
    + eapply Inv_exec; [ reflexivity | .. ]; rewrite ?Hm; simpl; auto.
      * apply Forall_snoc; [ exact H3 | ].
        eapply spawned_fetch with (img := img) (videoRef := true). reflexivity.
      * intros Hex. apply Exists_snoc in Hex. destruct Hex as [Hex | Hex];
          [ auto | discriminate ].
      * rewrite scans_snoc. simpl. lia.
      * rewrite app_nil_r. exact H6.
  - (* clickClose *)
    destruct (mounted c) eqn:Hm; simpl in Hf; [ | discriminate ]. injection Hf as <-.
    eapply Inv_exec; [ reflexivity | .. ]; rewrite ?Hm; simpl;
      rewrite ?app_nil_r; auto.
  - (* cameraSettles *)
    destruct (nth_error (pending c) i) as [ [cs k | | ] | ] eqn:Hn; try discriminate.
    injection Hf as <-.
    pose proof (nth_error_Forall _ _ _ _ Hn H3) as Hsp.
    destruct (spawned_camera_resume _ _ _ Hsp) as [-> Hres].
    assert (Hstep : currentStep (session c) = scanning).
    { apply H4. eapply nth_error_Exists; [ exact Hn | reflexivity ]. }
    pose proof (remove_nth_filter_length scanWaiting _ _ _ Hn) as Hlen. simpl in Hlen.
    destruct o as [e | m].
    + eapply Inv_exec; [ rewrite Hres; reflexivity | .. ]; simpl; rewrite ?app_nil_r;
        destruct (mounted c); simpl; auto.
      all: try (apply remove_nth_Forall; assumption).
      all: try (intros Hex; apply remove_nth_Exists in Hex; auto).
      all: try lia.
      intros _. split; [ exact Hstep | discriminate ].
    + eapply Inv_exec; [ rewrite Hres; reflexivity | .. ];
        destruct (videoRefCurrent p (addTracks (inr m) (unpend i c)));
        simpl; rewrite ?app_nil_r;
        destruct (mounted c); simpl; auto.
      all: try (apply remove_nth_Forall; assumption).
      all: try (intros Hex; apply remove_nth_Exists in Hex; auto).
      all: try lia.
      all: try (intros _; split; [ exact Hstep | discriminate ]).
  - (* fetchSettles *)
    destruct (nth_error (pending c) i) as [ [ | req k | ] | ] eqn:Hn; try discriminate.
    injection Hf as <-.
    pose proof (nth_error_Forall _ _ _ _ Hn H3) as Hsp.
    pose proof (spawned_fetch_resume _ _ _ Hsp o (videoRefCurrent p (unpend i c))) as Hres.
    pose proof (remove_nth_filter_length scanWaiting _ _ _ Hn) as Hlen. simpl in Hlen.
    destruct o as [e | r].
    + eapply Inv_exec; [ exact Hres | .. ]; simpl; rewrite ?app_nil_r;
        destruct (mounted c); simpl; auto.
      all: try (apply remove_nth_Forall; assumption).
      all: try (intros Hex; apply remove_nth_Exists in Hex; auto).
      all: try (destruct (isScanning (session c)); lia).
    + destruct Hres as (k' & Hres & Hsp').
      eapply Inv_exec; [ exact Hres | .. ]; simpl;
        destruct (mounted c); simpl; auto.
      all: try (apply Forall_snoc; [ apply remove_nth_Forall; assumption | exact Hsp' ]).
      all: try (intros Hex; apply Exists_snoc in Hex; destruct Hex as [Hex | Hex];
                [ apply remove_nth_Exists in Hex; auto | discriminate ]).
      all: try (rewrite scans_snoc; simpl; lia).
      all: rewrite app_nil_r; exact H6.
  - (* jsonSettles *)
    destruct (nth_error (pending c) i) as [ [ | | r k ] | ] eqn:Hn; try discriminate.
    injection Hf as <-.
    pose proof (nth_error_Forall _ _ _ _ Hn H3) as Hsp.
    destruct (spawned_json_resume _ _ _ Hsp (videoRefCurrent p (unpend i c)))
      as (mid & Hres & Hmid).
    pose proof (remove_nth_filter_length scanWaiting _ _ _ Hn) as Hlen. simpl in Hlen.
    assert (Hcommit : forall s, currentStep (commit mid s) = currentStep s /\
                                stream (commit mid s) = stream s /\
                                hasPermission (commit mid s) = hasPermission s).
    { intros s. destruct Hmid as [Hmid | [fid Hmid]].
      - apply failedScanTrace_inert in Hmid. destruct Hmid as [-> _]. auto.
      - apply acceptedScanTrace_effect in Hmid. destruct Hmid as [-> _]. auto. }
    assert (Htm : Forall (fun tm => tm = (callOnAutoCheckIn, 1000)) (armedTimeouts mid)).
    { destruct Hmid as [Hmid | [fid Hmid]].
      - destruct Hmid as [(e & ->) | [(data & e & ->) | (data & ->)]]; constructor.
      - apply acceptedScanTrace_effect in Hmid. destruct Hmid as (_ & _ & ->).
        constructor; [ reflexivity | constructor ]. }
    eapply Inv_exec; [ exact Hres | .. ]; simpl; rewrite ?app_nil_r;
      destruct (mounted c); simpl; rewrite ?commit_app; simpl; auto.
    all: try (apply remove_nth_Forall; assumption).
    all: try (intros Hex; apply remove_nth_Exists in Hex; auto).
    all: try (destruct (isScanning (session c)); lia).
    all: destruct (Hcommit (session c)) as (Hc1 & Hc2 & Hc3); rewrite ?Hc1, ?Hc2, ?Hc3; auto.
    all: unfold armedTimeouts; rewrite flat_map_app; simpl; rewrite app_nil_r;
      apply Forall_app; split; [ exact H6 | exact Htm ].
  - (* timerFires *)
    destruct (nth_error (timers c) i) as [ [[] ms] | ] eqn:Hn; try discriminate.
    injection Hf as <-.
    eapply Inv_exec; [ reflexivity | .. ]; simpl; rewrite ?app_nil_r;
      destruct (mounted c); simpl; auto.
    all: apply remove_nth_Forall; exact H6.
  - (* unmount *)
    destruct (mounted c) eqn:Hm; [ | discriminate ]. injection Hf as <-.
    assert (HI : Inv p (exec p noFrame effectCleanup c)).
    { eapply Inv_exec; [ reflexivity | .. ]; rewrite ?Hm; simpl;
        rewrite ?app_nil_r; auto. }
    destruct HI as [G1 G2 G3 G4 G5 G6]. constructor; assumption.
Qed.

Lemma reachable_Inv p c : reachable p c -> Inv p c.
Proof.
  induction 1 as [ | c ev c' Hr IH Hf ].
  - apply Inv_initial.
  - eapply Inv_fire; eassumption.
Qed.

(** The completed step is never reached: no handler calls
    [setCurrentStep("completed")]. *)
Lemma completed_unreachable p c :
  reachable p c -> currentStep (session c) <> completed.
Proof. intros H. exact (inv_step _ _ (reachable_Inv _ _ H)). Qed.

(** A stream is held only in the scanning step, and only after the platform
    answered a camera request. *)
Lemma stream_only_while_scanning p c :
  reachable p c -> stream (session c) <> None ->
  currentStep (session c) = scanning /\ hasPermission (session c) <> None.
Proof. intros H. exact (inv_stream _ _ (reachable_Inv _ _ H)). Qed.

(** Every armed timer is the check-in callback with the 1000 ms delay. *)
Lemma timers_fixed_delay p c :
  reachable p c -> Forall (fun tm => tm = (callOnAutoCheckIn, 1000)) (timers c).
Proof. intros H. exact (inv_timers _ _ (reachable_Inv _ _ H)). Qed.

(** * The capture button *)

Lemma captureEnabled_render p s :
  captureEnabled (render p s) = true <->
  currentStep s = scanning /\ hasPermission s <> Some false /\
  isScanning s = false /\ stream s <> None.
Proof.
  unfold render.
  destruct s as [st sc sm hp cc fid]; simpl.
  destruct st, hp as [[ | ] | ], sc, sm as [m | ]; simpl;
    split; try discriminate; try (intros (? & ? & ? & ?); congruence);
    repeat split; congruence.
Qed.

(** C5. The capture button is disabled while [isScanning] is true or [stream]
    is null, and a click on it is then no event at all: nothing runs and
    nothing is queued.  In every reachable configuration a submission in
    flight means [isScanning] is true, so a click is refused; the button is
    enabled exactly in the scanning step with permission granted, a stream
    present and [isScanning] false; and a click that does occur finds no
    submission in flight and leaves at most one. *)
Theorem capture_guard (p : Props) (c : Config) (frame : exn + string) :
  reachable p c ->
  (forall s, isScanning s = true \/ stream s = None ->
             captureEnabled (render p s) = false) /\
  (isScanning (session c) = true \/ stream (session c) = None ->
   fire p (clickCapture frame) c = None) /\
  (0 < scansInFlight c ->
   isScanning (session c) = true /\ fire p (clickCapture frame) c = None) /\
  (captureEnabled (render p (session c)) = true <->
   currentStep (session c) = scanning /\ hasPermission (session c) = Some true /\
   isScanning (session c) = false /\ stream (session c) <> None) /\
  (forall c', fire p (clickCapture frame) c = Some c' ->
     hasPermission (session c) = Some true /\ stream (session c) <> None /\
     isScanning (session c) = false /\
     scansInFlight c = 0 /\ scansInFlight c' <= 1).
Proof.
  intros Hr. pose proof (reachable_Inv _ _ Hr) as HI.
  assert (Hdis : forall s, isScanning s = true \/ stream s = None ->
                           captureEnabled (render p s) = false).
  { intros s Hs. destruct (captureEnabled (render p s)) eqn:He; [ | reflexivity ].
    apply captureEnabled_render in He. destruct He as (_ & _ & H1 & H2).
    destruct Hs; congruence. }
  assert (Hen : captureEnabled (render p (session c)) = true <->
                currentStep (session c) = scanning /\
                hasPermission (session c) = Some true /\
                isScanning (session c) = false /\ stream (session c) <> None).
  { rewrite captureEnabled_render. split.
    - intros (H1 & H2 & H3 & H4). repeat split; auto.
      destruct (inv_stream _ _ HI H4) as [_ Hp].
      destruct (hasPermission (session c)) as [[ | ] | ]; congruence.
    - intros (H1 & H2 & H3 & H4). repeat split; auto. congruence. }
  assert (Hrej : isScanning (session c) = true \/ stream (session c) = None ->
                 fire p (clickCapture frame) c = None).
  { intros Hs. simpl. rewrite (Hdis _ Hs), andb_false_r. reflexivity. }
  split; [ exact Hdis | ]. split; [ exact Hrej | ]. split; [ | split; [ exact Hen | ] ].
  - intros Hpos. pose proof (inv_scans _ _ HI) as H5.
    assert (Hsc : isScanning (session c) = true)
      by (destruct (isScanning (session c)); [ reflexivity | lia ]).
    split; [ exact Hsc | ]. apply Hrej. left. exact Hsc.
  - intros c' Hf.
    pose proof (Inv_fire _ _ _ _ HI Hf) as HI'.
    simpl in Hf. destruct (mounted c); simpl in Hf; [ | discriminate ].
    destruct (captureEnabled (render p (session c))) eqn:He; [ | discriminate ].
    destruct (proj1 Hen eq_refl) as (H1 & H2 & H3 & H4).
    repeat split; auto.
    + pose proof (inv_scans _ _ HI) as H5. rewrite H3 in H5. lia.
    + pose proof (inv_scans _ _ HI') as H5.
      destruct (isScanning (session c')); lia.
Qed.

Lemma fireAll_reachable p evs c c' :
  reachable p c -> fireAll p evs c = Some c' -> reachable p c'.
Proof.
  revert c. induction evs as [ | ev evs IH ]; intros c Hr Hf; simpl in Hf.
  - injection Hf as <-. exact Hr.
  - destruct (fire p ev c) as [c1 | ] eqn:H1; [ | discriminate ].
    eapply IH; [ | exact Hf ]. eapply reach_fire; eassumption.
Qed.

Lemma grantedConfig_reachable : reachable demoProps grantedConfig.
Proof.
  apply (fireAll_reachable demoProps cameraGranted initialConfig);
    [ apply reach_init | reflexivity ].
Qed.

Lemma capture_guard_witness :
  reachable demoProps grantedConfig /\
  captureEnabled (render demoProps (session grantedConfig)) = true /\
  scansInFlight grantedConfig = 0.
Proof.
  split; [ exact grantedConfig_reachable | ].
  destruct (capture_guard demoProps grantedConfig (inr demoFrame)
              grantedConfig_reachable) as (_ & _ & _ & Hen & Hclick).
  split.
  - apply Hen. repeat split; discriminate.
  - destruct (fire demoProps (clickCapture (inr demoFrame)) grantedConfig)
      as [c' | ] eqn:Hf; [ | discriminate Hf ].
    destruct (Hclick c' eq_refl) as (_ & _ & _ & H0 & _). exact H0.
Defined.

(** * Camera acquisition refused *)

Lemma trace_startCamera_denied env e :
  env_camera env = inl e ->
  trace env startCamera =
    [console_error "Kunde inte starta kamera:" e;
     setHasPermission false;
     toast_error "Kunde inte komma åt kameran. Kontrollera behörigheter."].
Proof. intros H. unfold trace, startCamera. simpl. rewrite H. reflexivity. Qed.

Lemma clickRetry_requests_camera p c :
  mounted c = true -> render p (session c) = PermissionDeniedView ->
  exists c' k,
    fire p clickRetry c = Some c' /\
    session c' = session c /\
    pending c' = pending c ++ [awaitingCamera cameraConstraints k] /\
    startCamera = GetUserMedia cameraConstraints k.
Proof.
  intros Hm Hv. simpl. rewrite Hm, Hv. simpl.
  eexists. eexists. split; [ reflexivity | ].
  rewrite exec_session, exec_pending, Hm. simpl. repeat split.
Qed.

(** C7. When [getUserMedia] is refused while the flow is in the scanning
    step, [hasPermission] becomes [false], an error toast is shown, the step
    stays scanning (and the stream is untouched), the rendered view is the
    permission-denied one, whose retry button runs [startCamera] again (a new
    camera request with the same constraints), and the capture button is not
    enabled there nor in any state without a stream. *)
Theorem startCamera_denied (p : Props) (env : Env) (s : Session) (e : exn) :
  currentStep s = scanning ->
  env_camera env = inl e ->
  let t := trace env startCamera in
  let s' := commit t s in
  hasPermission s' = Some false /\
  In (toast_error "Kunde inte komma åt kameran. Kontrollera behörigheter.") t /\
  currentStep s' = scanning /\
  stream s' = stream s /\
  render p s' = PermissionDeniedView /\
  retryOffered (render p s') = true /\
  captureEnabled (render p s') = false /\
  (forall c, mounted c = true -> session c = s' ->
     exists c' k,
       fire p clickRetry c = Some c' /\
       session c' = s' /\
       pending c' = pending c ++ [awaitingCamera cameraConstraints k] /\
       startCamera = GetUserMedia cameraConstraints k) /\
  (forall s0, stream s0 = None -> captureEnabled (render p s0) = false).
Proof.
  intros Hstep Hcam. cbv zeta. rewrite (trace_startCamera_denied env e Hcam).
  assert (Hview : render p (commit
            [console_error "Kunde inte starta kamera:" e;
             setHasPermission false;
             toast_error "Kunde inte komma åt kameran. Kontrollera behörigheter."] s)
          = PermissionDeniedView).
  { unfold render. simpl. rewrite Hstep. reflexivity. }
  rewrite Hview. simpl. repeat split; auto.
  - intros c Hm Hs.
    destruct (clickRetry_requests_camera p c Hm) as (c' & k & H1 & H2 & H3 & H4).
    { rewrite Hs. exact Hview. }
    exists c', k. repeat split; auto. rewrite H2. exact Hs.
  - intros s0 Hs0. destruct (captureEnabled (render p s0)) eqn:He; [ | reflexivity ].
    apply captureEnabled_render in He. destruct He as (_ & _ & _ & H). congruence.
Qed.

Lemma startCamera_denied_witness :
  let s := awaitingCameraSession in
  let t := trace rejectingEnv startCamera in
  currentStep s = scanning /\
  env_camera rejectingEnv = inl (Error "NotAllowedError" "Permission denied") /\
  hasPermission (commit t s) = Some false /\
  render demoProps (commit t s) = PermissionDeniedView /\
  captureEnabled (render demoProps (commit t s)) = false.
Proof.
  split; [ reflexivity | ]. split; [ reflexivity | ].
  destruct (startCamera_denied demoProps rejectingEnv awaitingCameraSession
              (Error "NotAllowedError" "Permission denied") eq_refl eq_refl)
    as (H1 & _ & _ & _ & H2 & _ & H3 & _).
  split; [ exact H1 | ]. split; [ exact H2 | exact H3 ].
Defined.

(** * Tracks are never stopped

    [track.stop()] occurs only in [stopCamera], and [stopCamera] is only
    called by the effect cleanup, with the first render's [stream]. *)

Lemma effectCleanup_is_empty : effectCleanup = Ret.
Proof. reflexivity. Qed.

Lemma performAll_liveTracks t c :
  stopsNothing t -> liveTracks (performAll t c) = liveTracks c.
Proof.
  revert c. induction t as [ | e t IH ]; intros c Hs; simpl; [ reflexivity | ].
  rewrite IH.
  - destruct e; simpl; try reflexivity. exfalso. apply (Hs t0). left. reflexivity.
  - intros x Hx. apply (Hs x). right. exact Hx.
Qed.

Lemma exec_liveTracks p frame body c :
  stopsNothing (fst (advance frame (videoRefCurrent p c) body)) ->
  liveTracks (exec p frame body c) = liveTracks c.
Proof.
  unfold exec. destruct (advance frame (videoRefCurrent p c) body) as [t r].
  simpl. intros Hs. destruct r; simpl; apply performAll_liveTracks; exact Hs.
Qed.

Lemma fire_keeps_tracks_live p ev c c' :
  Forall (spawned p) (pending c) ->
  fire p ev c = Some c' ->
  incl (liveTracks c) (liveTracks c').
Proof.
  intros Hsp Hf. destruct ev; simpl in Hf.
  - destruct (mounted c && checkboxShown _); [ | discriminate ]. injection Hf as <-.
    rewrite exec_liveTracks; [ apply incl_refl | stops_nothing ].
  - destruct (mounted c && continueEnabled _); [ | discriminate ]. injection Hf as <-.
    rewrite exec_liveTracks; [ apply incl_refl | ].
    unfold handleConsentAccepted. destruct (negb (consentChecked (session c))); stops_nothing.
  - destruct (mounted c && retryOffered _); [ | discriminate ]. injection Hf as <-.
    rewrite exec_liveTracks; [ apply incl_refl | stops_nothing ].
  - destruct (mounted c && captureEnabled _); [ | discriminate ]. injection Hf as <-.
    rewrite exec_liveTracks; [ apply incl_refl | ].
    destruct frame; stops_nothing.
  - destruct (mounted c); [ | discriminate ]. injection Hf as <-.
    rewrite exec_liveTracks; [ apply incl_refl | stops_nothing ].
  - destruct (nth_error (pending c) i) as [ [cs k | | ] | ] eqn:Hn; try discriminate.
    injection Hf as <-.
    destruct (spawned_camera_resume _ _ _ (nth_error_Forall _ _ _ _ Hn Hsp)) as [_ Hres].
    rewrite exec_liveTracks.
    + destruct o as [e | m]; simpl; [ apply incl_refl | apply incl_appr, incl_refl ].
    + rewrite Hres. destruct o as [e | m]; [ stops_nothing | ].
      destruct (videoRefCurrent p _); stops_nothing.
  - destruct (nth_error (pending c) i) as [ [ | req k | ] | ] eqn:Hn; try discriminate.
    injection Hf as <-.
    pose proof (spawned_fetch_resume _ _ _ (nth_error_Forall _ _ _ _ Hn Hsp) o
                  (videoRefCurrent p (unpend i c))) as Hres.
    rewrite exec_liveTracks; [ apply incl_refl | ].
    destruct o as [e | r]; [ rewrite Hres; stops_nothing | ].
    destruct Hres as (k' & -> & _). stops_nothing.
  - destruct (nth_error (pending c) i) as [ [ | | r k ] | ] eqn:Hn; try discriminate.
    injection Hf as <-.
    destruct (spawned_json_resume _ _ _ (nth_error_Forall _ _ _ _ Hn Hsp)
                (videoRefCurrent p (unpend i c))) as (mid & Hres & Hmid).
    rewrite exec_liveTracks; [ apply incl_refl | ].
    rewrite Hres.
    destruct Hmid as [[(e & ->) | [(data & e & ->) | (data & ->)]] | (fid & data & ->)];
      stops_nothing.
  - destruct (nth_error (timers c) i) as [ [[] ms] | ]; try discriminate.
    injection Hf as <-.
    rewrite exec_liveTracks; [ apply incl_refl | stops_nothing ].
  - destruct (mounted c); [ | discriminate ]. injection Hf as <-.
    simpl. rewrite exec_liveTracks; [ apply incl_refl | stops_nothing ].
Qed.

(** Once the platform has handed out a track, it stays live through every
    later event, teardown included. *)
Lemma tracks_stay_live p evs c c' :
  reachable p c -> fireAll p evs c = Some c' ->
  incl (liveTracks c) (liveTracks c').
Proof.
  revert c. induction evs as [ | ev evs IH ]; intros c Hr Hf; simpl in Hf.
  - injection Hf as <-. apply incl_refl.
  - destruct (fire p ev c) as [c1 | ] eqn:H1; [ | discriminate ].
    apply incl_tran with (liveTracks c1).
    + eapply fire_keeps_tracks_live; [ | exact H1 ].
      exact (inv_pending _ _ (reachable_Inv _ _ Hr)).
    + apply IH; [ eapply reach_fire; eassumption | exact Hf ].
Qed.

(** * A successful scan *)

(** On success the invocation stores the face id, shows the success toast,
    arms one 1000 ms timer for [onAutoCheckIn] and resets [isScanning]; it
    calls no other setter, so the step is what it was. *)
Lemma captureAndScanFace_success p env s face_id :
  ScanSuccess env face_id ->
  let t := trace env (captureAndScanFace p) in
  commit t s =
    apply_setter (setIsScanning false) (apply_setter (setScannedFaceId face_id) s) /\
  currentStep (commit t s) = currentStep s /\
  armedTimeouts t = [(callOnAutoCheckIn, 1000)] /\
  outcome env (captureAndScanFace p) = normal.
Proof.
  intros H. apply (scanAttempt_success p) in H. destruct H as (data & Hmid).
  unfold trace, outcome. rewrite run_captureAndScanFace. cbn [fst snd].
  rewrite Hmid. repeat split.
Qed.

(** C1, at the success response [{ status: "success", face_id: "abc123" }]:
    the face id is stored, [isScanning] is reset, exactly one timer of
    1000 ms is armed and its firing calls [onAutoCheckIn] once; but the step
    is still scanning and the view rendered is the scanning view, not the
    completed one. *)
Theorem success_keeps_step_scanning :
  exists c c',
    fireAll demoProps successfulScan initialConfig = Some c /\
    scannedFaceId (session c) = JStr "abc123" /\
    isScanning (session c) = false /\
    currentStep (session c) = scanning /\
    render demoProps (session c) =
      MainView "Registrera ansikte - Ada" (ScanningView false "Skanna ansikte") /\
    timers c = [(callOnAutoCheckIn, 1000)] /\
    fire demoProps (timerFires 0) c = Some c' /\
    List.length (filter isAutoCheckIn (log c')) = 1 /\
    timers c' = [] /\
    currentStep (session c') = scanning.
Proof.
  eexists. eexists. split; [ vm_compute; reflexivity | ].
  repeat (split; [ vm_compute; reflexivity | ]). vm_compute; reflexivity.
Qed.

(** * Teardown *)

(** C6, at teardown with a stream held: the cleanup does call [stopCamera],
    but the one of the first render, whose [stream] is [null]; it performs no
    effect, so the tracks stay live and the handle stays in the state.  The
    [stopCamera] of the current render would have stopped both tracks and
    cleared the handle, and would have been idempotent. *)
Theorem teardown_runs_stale_stopCamera :
  exists c',
    reachable demoProps grantedConfig /\
    stream (session grantedConfig) = Some demoStream /\
    fire demoProps unmount grantedConfig = Some c' /\
    effectCleanup = stopCamera initialSession /\
    trace rejectingEnv effectCleanup = [] /\
    liveTracks c' = [7; 8] /\
    log c' = log grantedConfig /\
    trace rejectingEnv (stopCamera (session grantedConfig)) =
      [track_stop 7; track_stop 8; setStream None].
Proof.
  eexists. split; [ exact grantedConfig_reachable | ].
  repeat (split; [ vm_compute; reflexivity | ]). vm_compute; reflexivity.
Qed.

(** C9, at consent, camera granted, then teardown: the session is destroyed
    while its state still holds the stream and both tracks are live, and no
    later event stops them. *)
Theorem stream_outlives_session :
  exists c,
    fireAll demoProps (cameraGranted ++ [unmount]) initialConfig = Some c /\
    reachable demoProps c /\
    mounted c = false /\
    stream (session c) = Some demoStream /\
    liveTracks c = getTracks demoStream /\
    (forall evs c', fireAll demoProps evs c = Some c' ->
       incl (getTracks demoStream) (liveTracks c')).
Proof.
  exists (setUnmounted grantedConfig).
  assert (Hf : fireAll demoProps (cameraGranted ++ [unmount]) initialConfig =
               Some (setUnmounted grantedConfig)) by (vm_compute; reflexivity).
  assert (Hr : reachable demoProps (setUnmounted grantedConfig)).
  { apply (fireAll_reachable demoProps (cameraGranted ++ [unmount]) initialConfig);
      [ apply reach_init | exact Hf ]. }
  split; [ exact Hf | ]. split; [ exact Hr | ].
  repeat (split; [ reflexivity | ]).
  intros evs c' Hf'. exact (tracks_stay_live demoProps evs _ c' Hr Hf').
Qed.

(** * What one event does to a configuration *)

Lemma exec_facts p frame body c0 t r :
  advance frame (videoRefCurrent p c0) body = (t, r) ->
  log (exec p frame body c0) = log c0 ++ t /\
  session (exec p frame body c0) =
    (if mounted c0 then commit t (session c0) else session c0) /\
  timers (exec p frame body c0) = timers c0 ++ armedTimeouts t /\
  pending (exec p frame body c0) =
    pending c0 ++ match r with suspended w => [w] | finished _ => [] end /\
  mounted (exec p frame body c0) = mounted c0.
Proof.
  intros H.
  rewrite exec_log, exec_session, exec_timers, exec_pending, exec_mounted, H.
  repeat split.
Qed.

Lemma scansInFlight_pending c1 c2 :
  pending c1 = pending c2 -> scansInFlight c1 = scansInFlight c2.
Proof. unfold scansInFlight. intros ->. reflexivity. Qed.

(** Every event that occurs emits one of the traces of [emits], appends it
    to the log, commits it if the component is mounted, arms its timeouts,
    and changes the number of submissions in flight as the event says. *)
Lemma fire_emits p ev c c' :
  Forall (spawned p) (pending c) ->
  fire p ev c = Some c' ->
  exists t,
    emits ev t /\
    log c' = log c ++ t /\
    session c' = (if mounted c then commit t (session c) else session c) /\
    timers c' = match ev with
                | timerFires i => remove_nth i (timers c)
                | _ => timers c
                end ++ armedTimeouts t /\
    mounted c' = match ev with
                 | unmount => false
                 | _ => mounted c
                 end /\
    scansInFlight c' + scanEnds ev = scansInFlight c + scanStarts ev.
Proof.
  intros Hsp Hf. destruct ev; simpl in Hf.
  - (* checkConsent *)
    destruct (mounted c && checkboxShown _); [ | discriminate ]. injection Hf as <-.
    destruct (exec_facts p noFrame (setConsentChecked checked ;; Ret) c _ _ eq_refl)
      as (Hl & Hs & Ht & Hp & Hm).
    eexists. split; [ constructor | ]. unfold scansInFlight.
    rewrite Hl, Hs, Ht, Hp, Hm. simpl. repeat rewrite app_nil_r. repeat split; lia.
  - (* clickContinue *)
    destruct (mounted c) eqn:Hmc; simpl in Hf; [ | discriminate ].
    destruct (continueEnabled _) eqn:Hv; [ | discriminate ]. injection Hf as <-.
    assert (Hcc : consentChecked (session c) = true).
    { unfold render in Hv.
      destruct (is_false (hasPermission (session c)) &&
                Step_eqb (currentStep (session c)) scanning); [ discriminate | ].
      destruct (currentStep (session c)); simpl in Hv; try discriminate.
      rewrite negb_involutive in Hv. exact Hv. }
    assert (Hadv : advance noFrame (videoRefCurrent p c) (handleConsentAccepted (session c)) =
                   ([setCurrentStep scanning],
                    suspended (awaitingCamera cameraConstraints
                                 match startCamera with
                                 | GetUserMedia _ k => k
                                 | _ => fun _ => Ret
                                 end))).
    { unfold handleConsentAccepted. rewrite Hcc. reflexivity. }
    destruct (exec_facts p noFrame _ c _ _ Hadv) as (Hl & Hs & Ht & Hp & Hm).
    eexists. split; [ constructor | ]. unfold scansInFlight.
    rewrite Hl, Hs, Ht, Hp, Hm, Hmc, scans_snoc. simpl. repeat rewrite app_nil_r.
    repeat split; lia.
  - (* clickRetry *)
    destruct (mounted c && retryOffered _); [ | discriminate ]. injection Hf as <-.
    destruct (exec_facts p noFrame startCamera c _ _ eq_refl)
      as (Hl & Hs & Ht & Hp & Hm).
    eexists. split; [ constructor | ]. unfold scansInFlight.
    rewrite Hl, Hs, Ht, Hp, Hm, scans_snoc. simpl. repeat rewrite app_nil_r.
    destruct (mounted c); repeat split; lia.
  - (* clickCapture *)
    destruct (mounted c && captureEnabled _); [ | discriminate ]. injection Hf as <-.
    destruct frame as [e | img].
    + destruct (exec_facts p (inl e) (captureAndScanFace p) c _ _ eq_refl)
        as (Hl & Hs & Ht & Hp & Hm).
      eexists. split; [ constructor | ]. unfold scansInFlight.
      rewrite Hl, Hs, Ht, Hp, Hm. simpl. repeat rewrite app_nil_r.
      repeat split; lia.
    + destruct (exec_facts p (inr img) (captureAndScanFace p) c _ _ eq_refl)
        as (Hl & Hs & Ht & Hp & Hm).
      eexists. split; [ constructor | ]. unfold scansInFlight.
      rewrite Hl, Hs, Ht, Hp, Hm, scans_snoc. simpl. repeat rewrite app_nil_r.
      repeat split; lia.
  - (* clickClose *)
    destruct (mounted c) eqn:Hmc; [ | discriminate ]. injection Hf as <-.
    destruct (exec_facts p noFrame (onClose ;; Ret) c _ _ eq_refl)
      as (Hl & Hs & Ht & Hp & Hm).
    eexists. split; [ constructor | ]. unfold scansInFlight.
    rewrite Hl, Hs, Ht, Hp, Hm, Hmc. simpl. repeat rewrite app_nil_r.
    repeat split; lia.
  - (* cameraSettles *)
    destruct (nth_error (pending c) i) as [ [cs k | | ] | ] eqn:Hn; try discriminate.
    injection Hf as <-.
    destruct (spawned_camera_resume _ _ _ (nth_error_Forall _ _ _ _ Hn Hsp)) as [_ Hres].
    pose proof (remove_nth_filter_length scanWaiting _ _ _ Hn) as Hlen. simpl in Hlen.
    specialize (Hres o (videoRefCurrent p (addTracks o (unpend i c)))).
    destruct o as [e | m];
      destruct (exec_facts p noFrame _ _ _ _ Hres) as (Hl & Hs & Ht & Hp & Hm);
      unfold scansInFlight; rewrite Hl, Hs, Ht, Hp, Hm; simpl.
    + eexists. split; [ constructor | ]. simpl. repeat rewrite app_nil_r. repeat split; lia.
    + eexists. split; [ apply emits_camera_granted | ]. simpl. repeat rewrite app_nil_r.
      repeat split; lia.
  - (* fetchSettles *)
    destruct (nth_error (pending c) i) as [ [ | req k | ] | ] eqn:Hn; try discriminate.
    injection Hf as <-.
    pose proof (spawned_fetch_resume _ _ _ (nth_error_Forall _ _ _ _ Hn Hsp) o
                  (videoRefCurrent p (unpend i c))) as Hres.
    pose proof (remove_nth_filter_length scanWaiting _ _ _ Hn) as Hlen. simpl in Hlen.
    destruct o as [e | r].
    + destruct (exec_facts p noFrame _ _ _ _ Hres) as (Hl & Hs & Ht & Hp & Hm).
      eexists. split; [ constructor | ]. unfold scansInFlight.
      rewrite Hl, Hs, Ht, Hp, Hm. simpl. repeat rewrite app_nil_r. repeat split; lia.
    + destruct Hres as (k' & Hres & _).
      destruct (exec_facts p noFrame _ _ _ _ Hres) as (Hl & Hs & Ht & Hp & Hm).
      eexists. split; [ constructor | ]. unfold scansInFlight.
      rewrite Hl, Hs, Ht, Hp, Hm, scans_snoc. simpl. repeat rewrite app_nil_r.
      destruct (mounted c); repeat split; lia.
  - (* jsonSettles *)
    destruct (nth_error (pending c) i) as [ [ | | r k ] | ] eqn:Hn; try discriminate.
    injection Hf as <-.
    destruct (spawned_json_resume _ _ _ (nth_error_Forall _ _ _ _ Hn Hsp)
                (videoRefCurrent p (unpend i c))) as (mid & Hres & Hmid).
    pose proof (remove_nth_filter_length scanWaiting _ _ _ Hn) as Hlen. simpl in Hlen.
    destruct (exec_facts p noFrame _ _ _ _ Hres) as (Hl & Hs & Ht & Hp & Hm).
    exists (mid ++ [setIsScanning false]). split.
    { destruct Hmid as [Hmid | [fid Hmid]];
        [ apply emits_json_failed | eapply emits_json_accepted ]; eassumption. }
    unfold scansInFlight. rewrite Hl, Hs, Ht, Hp, Hm. simpl. repeat rewrite app_nil_r.
    repeat split; lia.
  - (* timerFires *)
    destruct (nth_error (timers c) i) as [ [[] ms] | ]; try discriminate.
    injection Hf as <-.
    destruct (exec_facts p noFrame (onAutoCheckIn ;; Ret) (untimer i c) _ _ eq_refl)
      as (Hl & Hs & Ht & Hp & Hm).
    eexists. split; [ constructor | ]. unfold scansInFlight.
    rewrite Hl, Hs, Ht, Hp, Hm. simpl. repeat rewrite app_nil_r. repeat split; lia.
  - (* unmount *)
    destruct (mounted c) eqn:Hmc; [ | discriminate ]. injection Hf as <-.
    destruct (exec_facts p noFrame effectCleanup c _ _ eq_refl)
      as (Hl & Hs & Ht & Hp & Hm).
    exists []. split; [ constructor | ]. unfold scansInFlight. simpl.
    rewrite Hl, Hs, Ht, Hp, Hmc. simpl. repeat rewrite app_nil_r. repeat split; lia.
Qed.

(** What the committed state looks like after the trace of an event. *)
Lemma emits_commit ev t s :
  emits ev t ->
  currentStep (commit t s) =
    match ev with
    | clickContinue => scanning
    | _ => currentStep s
    end /\
  stream (commit t s) =
    match ev with
    | cameraSettles _ (inr m) => Some m
    | _ => stream s
    end /\
  hasPermission (commit t s) =
    match ev with
    | cameraSettles _ (inr _) => Some true
    | cameraSettles _ (inl _) => Some false
    | _ => hasPermission s
    end /\
  consentChecked (commit t s) =
    match ev with
    | checkConsent b => b
    | _ => consentChecked s
    end /\
  isScanning (commit t s) =
    match ev with
    | clickCapture (inr _) => true
    | clickCapture (inl _) | fetchSettles _ (inl _) | jsonSettles _ => false
    | _ => isScanning s
    end.
Proof.
  intros H. inversion H as
    [ b | | | img | e | | i e | i m vr | i e | i r | i mid Hmid | i fid mid Hmid | i | ];
    subst; try (simpl; repeat split; fail).
  - destruct vr; simpl; repeat split.
  - apply failedScanTrace_inert in Hmid. destruct Hmid as (Hc & _).
    rewrite commit_app, Hc. simpl. repeat split.
  - apply acceptedScanTrace_effect in Hmid. destruct Hmid as (Hc & _).
    rewrite commit_app, Hc. simpl. repeat split.
Qed.

(** What must hold for an event to occur. *)
Lemma fire_enabled p ev c c' :
  fire p ev c = Some c' ->
  match ev with
  | checkConsent _ =>
      mounted c = true /\ currentStep (session c) = consent
  | clickContinue =>
      mounted c = true /\ currentStep (session c) = consent /\
      consentChecked (session c) = true
  | clickRetry =>
      mounted c = true /\ currentStep (session c) = scanning /\
      hasPermission (session c) = Some false
  | clickCapture _ =>
      mounted c = true /\ currentStep (session c) = scanning /\
      hasPermission (session c) <> Some false /\
      isScanning (session c) = false /\ stream (session c) <> None
  | clickClose | unmount => mounted c = true
  | cameraSettles i _ =>
      exists cs k, nth_error (pending c) i = Some (awaitingCamera cs k)
  | fetchSettles i _ =>
      exists req k, nth_error (pending c) i = Some (awaitingFetch req k)
  | jsonSettles i =>
      exists r k, nth_error (pending c) i = Some (awaitingJson r k)
  | timerFires i => exists tm, nth_error (timers c) i = Some tm
  end.
Proof.
  intros Hf. destruct ev; simpl in Hf.
  - destruct (mounted c); simpl in Hf; [ | discriminate ].
    destruct (checkboxShown _) eqn:Hv; [ | discriminate ]. split; [ reflexivity | ].
    unfold render in Hv.
    destruct (is_false (hasPermission (session c)) &&
              Step_eqb (currentStep (session c)) scanning); [ discriminate | ].
    destruct (currentStep (session c)); simpl in Hv; try discriminate. reflexivity.
  - destruct (mounted c); simpl in Hf; [ | discriminate ].
    destruct (continueEnabled _) eqn:Hv; [ | discriminate ]. split; [ reflexivity | ].
    unfold render in Hv.
    destruct (is_false (hasPermission (session c)) &&
              Step_eqb (currentStep (session c)) scanning); [ discriminate | ].
    destruct (currentStep (session c)); simpl in Hv; try discriminate.
    rewrite negb_involutive in Hv. split; [ reflexivity | exact Hv ].
  - destruct (mounted c); simpl in Hf; [ | discriminate ].
    destruct (retryOffered _) eqn:Hv; [ | discriminate ]. split; [ reflexivity | ].
    unfold render in Hv.
    destruct (hasPermission (session c)) as [[ | ] | ]; simpl in Hv; try discriminate.
    destruct (currentStep (session c)); simpl in Hv; try discriminate.
    split; reflexivity.
  - destruct (mounted c); simpl in Hf; [ | discriminate ].
    destruct (captureEnabled _) eqn:Hv; [ | discriminate ]. split; [ reflexivity | ].
    apply captureEnabled_render in Hv. exact Hv.
  - destruct (mounted c); [ reflexivity | discriminate ].
  - destruct (nth_error (pending c) i) as [ [cs k | | ] | ]; try discriminate. eauto.
  - destruct (nth_error (pending c) i) as [ [ | req k | ] | ]; try discriminate. eauto.
  - destruct (nth_error (pending c) i) as [ [ | | r k ] | ]; try discriminate. eauto.
  - destruct (nth_error (timers c) i) as [ tm | ]; try discriminate. eauto.
  - destruct (mounted c); [ reflexivity | discriminate ].
Qed.

(** Events that neither start nor resume a handler with an [await] leave
    the pending handlers and the live tracks alone. *)
Lemma fire_quiet p ev c c' :
  fire p ev c = Some c' ->
  match ev with
  | checkConsent _ | clickClose | unmount =>
      pending c' = pending c /\ liveTracks c' = liveTracks c
  | timerFires _ =>
      pending c' = pending c /\ liveTracks c' = liveTracks c
  | _ => True
  end.
Proof.
  intros Hf. destruct ev; simpl in Hf; try exact I.
  - destruct (mounted c && checkboxShown _); [ | discriminate ]. injection Hf as <-.
    rewrite exec_pending, exec_liveTracks; [ | stops_nothing ].
    simpl. rewrite app_nil_r. split; reflexivity.
  - destruct (mounted c); [ | discriminate ]. injection Hf as <-.
    rewrite exec_pending, exec_liveTracks; [ | stops_nothing ].
    simpl. rewrite app_nil_r. split; reflexivity.
  - destruct (nth_error (timers c) i) as [ [[] ms] | ]; try discriminate.
    injection Hf as <-.
    rewrite exec_pending, exec_liveTracks; [ | stops_nothing ].
    simpl. rewrite app_nil_r. split; reflexivity.
  - destruct (mounted c); [ | discriminate ]. injection Hf as <-. simpl.
    rewrite exec_pending, exec_liveTracks; [ | stops_nothing ].
    simpl. rewrite app_nil_r. split; reflexivity.
Qed.

Lemma reachable_spawned p c : reachable p c -> Forall (spawned p) (pending c).
Proof. intros H. exact (inv_pending _ _ (reachable_Inv _ _ H)). Qed.

Lemma afterEvents_reachable p evs : reachable p (afterEvents p evs).
Proof.
  unfold afterEvents. destruct (fireAll p evs initialConfig) as [c | ] eqn:H.
  - eapply fireAll_reachable; [ apply reach_init | exact H ].
  - apply reach_init.
Qed.

(** * The step only advances *)

(** X3. The step is consent or scanning in every reachable configuration
    and the completed view is never rendered; an event changes the step only
    when it is the click on the continue button, so a flow that reached the
    scanning step stays there. *)
Theorem step_only_advances (p : Props) (c : Config) :
  reachable p c ->
  (currentStep (session c) = consent \/ currentStep (session c) = scanning) /\
  (forall title, render p (session c) <> MainView title CompletedView) /\
  (forall ev c', fire p ev c = Some c' ->
     (currentStep (session c) = scanning -> currentStep (session c') = scanning) /\
     (currentStep (session c') <> currentStep (session c) -> ev = clickContinue)).
Proof.
  intros Hr. pose proof (inv_step _ _ (reachable_Inv _ _ Hr)) as Hnc.
  split; [ | split ].
  - destruct (currentStep (session c)); [ left | right | ]; congruence.
  - intros title. unfold render.
    destruct (is_false (hasPermission (session c)) &&
              Step_eqb (currentStep (session c)) scanning); [ discriminate | ].
    destruct (currentStep (session c)); congruence.
  - intros ev c' Hf.
    destruct (fire_emits _ _ _ _ (reachable_spawned _ _ Hr) Hf)
      as (t & Hem & _ & Hses & _).
    destruct (emits_commit ev t (session c) Hem) as (Hstep & _).
    rewrite Hses. destruct (mounted c); [ rewrite Hstep | ].
    + destruct ev; split; congruence.
    + split; congruence.
Qed.

Lemma step_only_advances_witness :
  reachable demoProps grantedConfig /\
  currentStep (session grantedConfig) = scanning /\
  forall ev c', fire demoProps ev grantedConfig = Some c' ->
                currentStep (session c') = scanning.
Proof.
  split; [ exact grantedConfig_reachable | ]. split; [ reflexivity | ].
  intros ev c' Hf.
  destruct (step_only_advances demoProps grantedConfig grantedConfig_reachable)
    as (_ & _ & H).
  exact (proj1 (H ev c' Hf) eq_refl).
Defined.

(** * Nothing happens before consent *)

(** X4. While the flow is in the consent step nothing has been asked of the
    camera or the service: no handler is waiting, no timer is armed, no track
    is live, the state holds no stream, no permission answer and no face id,
    and the only effects so far are consent toggles and [onClose] calls.  And
    whenever the flow is in the scanning step the consent box is checked. *)
Theorem nothing_before_consent (p : Props) (c : Config) :
  reachable p c ->
  (currentStep (session c) = consent -> untouched c) /\
  (currentStep (session c) = scanning -> consentChecked (session c) = true).
Proof.
  induction 1 as [ | c ev c' Hr IH Hf ].
  - split; [ | discriminate ]. intros _. unfold untouched. simpl.
    repeat split; constructor.
  - destruct IH as [IH1 IH2].
    destruct (fire_emits _ _ _ _ (reachable_spawned _ _ Hr) Hf)
      as (t & Hem & Hlog & Hses & Htim & _).
    destruct (emits_commit ev t (session c) Hem) as (Hstep & _ & _ & Hcc & _).
    pose proof (fire_enabled _ _ _ _ Hf) as Hen.
    pose proof (fire_quiet _ _ _ _ Hf) as Hq.
    split.
    + intros Hc'.
      assert (Hc : currentStep (session c) = consent).
      { rewrite Hses in Hc'. destruct (mounted c) eqn:Hm; [ | exact Hc' ].
        rewrite Hstep in Hc'. destruct ev; try exact Hc'. discriminate. }
      destruct (IH1 Hc) as (Hp & Ht & Hl & Hs & Hh & Hi & Hf' & Hlg).
      destruct ev; simpl in Hen.
      * destruct Hq as [Hq1 Hq2]. clear Hcc Hstep. inversion Hem; subst t.
        unfold untouched. rewrite Hq1, Hq2, Htim, Hlog, Hses, Ht.
        destruct (mounted c); simpl; repeat split; auto;
          apply Forall_app; split; auto; constructor; eauto.
      * destruct Hen as (Hm & _). rewrite Hses, Hm, Hstep in Hc'. discriminate.
      * destruct Hen as (_ & Hx & _). congruence.
      * destruct Hen as (_ & Hx & _). congruence.
      * destruct Hq as [Hq1 Hq2]. clear Hcc Hstep. inversion Hem; subst t.
        unfold untouched. rewrite Hq1, Hq2, Htim, Hlog, Hses, Ht.
        destruct (mounted c); simpl; repeat split; auto;
          apply Forall_app; split; auto; constructor; eauto.
      * destruct Hen as (cs & k & Hn). rewrite Hp in Hn. destruct i; discriminate.
      * destruct Hen as (cs & k & Hn). rewrite Hp in Hn. destruct i; discriminate.
      * destruct Hen as (cs & k & Hn). rewrite Hp in Hn. destruct i; discriminate.
      * destruct Hen as (tm & Hn). rewrite Ht in Hn. destruct i; discriminate.
      * destruct Hq as [Hq1 Hq2]. clear Hcc Hstep. inversion Hem; subst t.
        unfold untouched. rewrite Hq1, Hq2, Htim, Hlog, Hses, Ht.
        destruct (mounted c); simpl; rewrite app_nil_r; repeat split; auto.
    + intros Hc'. rewrite Hses in *.
      destruct (mounted c) eqn:Hm; [ | exact (IH2 Hc') ].
      rewrite Hstep in Hc'. rewrite Hcc.
      destruct ev; simpl in Hen; try exact (IH2 Hc').
      * destruct Hen as (_ & Hx). congruence.
      * destruct Hen as (_ & _ & Hx). exact Hx.
Qed.

Lemma nothing_before_consent_witness :
  let c := afterEvents demoProps [checkConsent true; clickClose; checkConsent false] in
  reachable demoProps c /\ currentStep (session c) = consent /\ untouched c.
Proof.
  split; [ apply afterEvents_reachable | ]. split; [ reflexivity | ].
  apply (nothing_before_consent demoProps
           (afterEvents demoProps [checkConsent true; clickClose; checkConsent false])).
  - apply afterEvents_reachable.
  - reflexivity.
Defined.

(** * The spinner and the submission *)

Lemma busy_means_in_flight p c :
  reachable p c ->
  mounted c = true -> isScanning (session c) = true -> scansInFlight c = 1.
Proof.
  induction 1 as [ | c ev c' Hr IH Hf ]; [ discriminate | ].
  intros Hm' Hb'.
  destruct (fire_emits _ _ _ _ (reachable_spawned _ _ Hr) Hf)
    as (t & Hem & _ & Hses & _ & Hmnt & Hscan).
  destruct (emits_commit ev t (session c) Hem) as (_ & _ & _ & _ & Hbusy).
  pose proof (fire_enabled _ _ _ _ Hf) as Hen.
  pose proof (inv_scans _ _ (reachable_Inv _ _ Hr)) as Hle.
  assert (Hm : mounted c = true) by (destruct ev; congruence).
  rewrite Hses, Hm, Hbusy in Hb'. specialize (IH Hm).
  destruct ev as [ b | | | [e | img] | | i o | i [e | r] | i | i | ];
    simpl in Hscan, Hen; try discriminate; try (specialize (IH Hb'); lia).
  destruct Hen as (_ & _ & _ & Hidle & _). rewrite Hidle in Hle. lia.
Qed.

(** X8. At most one submission is in flight in any reachable configuration,
    and while the component is mounted [isScanning] is true exactly when one
    is: the capture button shows "Skannar..." for as long as a [fetch] or a
    [response.json()] of this flow is unsettled, and never otherwise. *)
Theorem isScanning_tracks_submission (p : Props) (c : Config) :
  reachable p c ->
  scansInFlight c <= 1 /\
  (isScanning (session c) = false -> scansInFlight c = 0) /\
  (mounted c = true ->
   (isScanning (session c) = true <-> scansInFlight c = 1)).
Proof.
  intros Hr. pose proof (inv_scans _ _ (reachable_Inv _ _ Hr)) as Hle.
  split; [ destruct (isScanning (session c)); lia | ].
  split; [ intros Hi; rewrite Hi in Hle; lia | ].
  intros Hm. split.
  - apply (busy_means_in_flight p); assumption.
  - intros H1. destruct (isScanning (session c)); [ reflexivity | lia ].
Qed.

Lemma isScanning_tracks_submission_witness :
  let c := afterEvents demoProps (cameraGranted ++ [clickCapture (inr demoFrame)]) in
  reachable demoProps c /\ mounted c = true /\
  isScanning (session c) = true /\ scansInFlight c = 1.
Proof.
  split; [ apply afterEvents_reachable | ]. split; [ reflexivity | ].
  split; [ reflexivity | ].
  destruct (isScanning_tracks_submission demoProps
              (afterEvents demoProps (cameraGranted ++ [clickCapture (inr demoFrame)]))
              (afterEvents_reachable _ _)) as (_ & _ & H).
  apply (H eq_refl). reflexivity.
Defined.

(** * The stream is never given back *)

Lemma emits_never_releases ev t :
  emits ev t -> (forall x, ~ In (track_stop x) t) /\ ~ In (setStream None) t.
Proof.
  intros H. inversion H as
    [ b | | | img | e | | i e | i m vr | i e | i r | i mid Hmid | i fid mid Hmid | i | ];
    subst; try (split; [ stops_nothing | simpl; intuition discriminate ]).
  - destruct vr; split; try stops_nothing; simpl; intuition discriminate.
  - destruct Hmid as [(e & ->) | [(data & e & ->) | (data & ->)]];
      (split; [ stops_nothing | simpl; intuition discriminate ]).
  - destruct Hmid as (data & ->).
    split; [ stops_nothing | simpl; intuition discriminate ].
Qed.

(** X9. No execution ever stops a camera track or clears the stream handle:
    the log of a reachable configuration holds no [track.stop()] and no
    [setStream(null)], and every event keeps a held stream held and every
    live track live. *)
Theorem stream_never_released (p : Props) (c : Config) :
  reachable p c ->
  (forall x, ~ In (track_stop x) (log c)) /\
  ~ In (setStream None) (log c) /\
  (forall ev c', fire p ev c = Some c' ->
     (stream (session c) <> None -> stream (session c') <> None) /\
     incl (liveTracks c) (liveTracks c')).
Proof.
  intros Hr.
  assert (Hlog : (forall x, ~ In (track_stop x) (log c)) /\ ~ In (setStream None) (log c)).
  { induction Hr as [ | c ev c' Hr IH Hf ].
    - split; [ intros x [] | intros [] ].
    - destruct (fire_emits _ _ _ _ (reachable_spawned _ _ Hr) Hf)
        as (t & Hem & Hlog & _).
      destruct (emits_never_releases _ _ Hem) as [Ht1 Ht2].
      destruct IH as [IH1 IH2]. rewrite Hlog. split.
      + intros x Hx. apply in_app_or in Hx. destruct Hx; [ eapply IH1 | eapply Ht1 ]; eauto.
      + intros Hx. apply in_app_or in Hx. destruct Hx; auto. }
  destruct Hlog as [H1 H2]. split; [ exact H1 | ]. split; [ exact H2 | ].
  intros ev c' Hf. split.
  - destruct (fire_emits _ _ _ _ (reachable_spawned _ _ Hr) Hf)
      as (t & Hem & _ & Hses & _).
    destruct (emits_commit ev t (session c) Hem) as (_ & Hst & _).
    rewrite Hses. destruct (mounted c); [ rewrite Hst | auto ].
    destruct ev as [ | | | | | i [e | m] | | | | ]; auto. discriminate.
  - eapply fire_keeps_tracks_live; [ apply reachable_spawned; exact Hr | exact Hf ].
Qed.

Lemma stream_never_released_witness :
  reachable demoProps grantedConfig /\
  (forall x, ~ In (track_stop x) (log grantedConfig)) /\
  forall ev c', fire demoProps ev grantedConfig = Some c' ->
                stream (session c') <> None /\ incl [7; 8] (liveTracks c').
Proof.
  split; [ exact grantedConfig_reachable | ].
  destruct (stream_never_released demoProps grantedConfig grantedConfig_reachable)
    as (H1 & _ & H3).
  split; [ exact H1 | ]. intros ev c' Hf. destruct (H3 ev c' Hf) as [Ha Hb].
  split; [ apply Ha; discriminate | exact Hb ].
Defined.

(** * Check-ins and successes *)

Lemma remove_nth_length {A : Type} i (l : list A) x :
  nth_error l i = Some x -> List.length l = S (List.length (remove_nth i l)).
Proof.
  revert i. induction l as [ | y l IH ]; intros [ | i ]; simpl; try discriminate.
  - reflexivity.
  - intros H. rewrite (IH i H). reflexivity.
Qed.

Lemma emits_accounting ev t :
  emits ev t ->
  List.length (filter isAutoCheckIn t) =
    match ev with timerFires _ => 1 | _ => 0 end /\
  List.length (armedTimeouts t) = List.length (filter isSuccessToast t).
Proof.
  intros H. inversion H as
    [ b | | | img | e | | i e | i m vr | i e | i r | i mid Hmid | i fid mid Hmid | i | ];
    subst; try (split; reflexivity).
  - destruct vr; split; reflexivity.
  - destruct Hmid as [(e & ->) | [(data & e & ->) | (data & ->)]]; split; reflexivity.
  - destruct Hmid as (data & ->). split; reflexivity.
Qed.

(** X14. In every reachable configuration the calls of [onAutoCheckIn] made
    so far plus the timers still armed equal the success toasts shown so
    far: each accepted scan leads to one call at most, and to exactly one
    once its timer has fired. *)
Theorem checkins_match_successes (p : Props) (c : Config) :
  reachable p c ->
  List.length (filter isAutoCheckIn (log c)) + List.length (timers c) =
  List.length (filter isSuccessToast (log c)).
Proof.
  induction 1 as [ | c ev c' Hr IH Hf ]; [ reflexivity | ].
  destruct (fire_emits _ _ _ _ (reachable_spawned _ _ Hr) Hf)
    as (t & Hem & Hlog & _ & Htim & _).
  destruct (emits_accounting _ _ Hem) as [Ha Hs].
  pose proof (fire_enabled _ _ _ _ Hf) as Hen.
  rewrite Hlog, Htim, !filter_app, !length_app, Ha, Hs.
  destruct ev; try lia.
  destruct Hen as (tm & Hn). rewrite (remove_nth_length _ _ _ Hn) in IH. lia.
Qed.

Lemma checkins_match_successes_witness :
  let c := afterEvents demoProps (successfulScan ++ [timerFires 0]) in
  reachable demoProps c /\
  List.length (filter isAutoCheckIn (log c)) = 1 /\
  List.length (filter isSuccessToast (log c)) = 1.
Proof.
  split; [ apply afterEvents_reachable | ].
  pose proof (checkins_match_successes demoProps
                (afterEvents demoProps (successfulScan ++ [timerFires 0]))
                (afterEvents_reachable _ _)) as H.
  split; [ exact H | ]. rewrite <- H. reflexivity.
Defined.

(** * The camera is granted *)

(** X2. When [getUserMedia] resolves, the stream is stored, permission is
    granted and the tracks are live; the stream is attached to the [<video>]
    element only if that element is on screen at that moment.  After a
    refusal the permission-denied view is on screen instead, so a grant that
    follows a retry stores the stream and brings the scanning view back with
    a [<video>] element that never got the stream. *)
Theorem camera_granted_attaches_if_shown
    (p : Props) (c : Config) (i : nat) (cs : Constraints)
    (k : exn + MediaStream -> Prog) (m : MediaStream) :
  reachable p c ->
  mounted c = true ->
  nth_error (pending c) i = Some (awaitingCamera cs k) ->
  exists c',
    fire p (cameraSettles i (inr m)) c = Some c' /\
    log c' = log c ++ setStream (Some m) :: setHasPermission true ::
               (if videoShown (render p (session c)) then [set_srcObject m] else []) /\
    stream (session c') = Some m /\
    hasPermission (session c') = Some true /\
    currentStep (session c') = scanning /\
    liveTracks c' = getTracks m ++ liveTracks c /\
    videoShown (render p (session c')) = true /\
    (render p (session c) = PermissionDeniedView ->
     log c' = log c ++ [setStream (Some m); setHasPermission true]).
Proof.
  intros Hr Hm Hn.
  pose proof (reachable_Inv _ _ Hr) as HI.
  destruct (spawned_camera_resume _ _ _
              (nth_error_Forall _ _ _ _ Hn (inv_pending _ _ HI))) as [_ Hres].
  assert (Hstep : currentStep (session c) = scanning).
  { apply (inv_camera _ _ HI). eapply nth_error_Exists; [ exact Hn | reflexivity ]. }
  set (c0 := addTracks (inr m) (unpend i c)).
  exists (exec p noFrame (k (inr m)) c0).
  split; [ simpl; rewrite Hn; reflexivity | ].
  assert (Hvr : videoRefCurrent p c0 = videoShown (render p (session c))).
  { unfold videoRefCurrent, c0. simpl. rewrite Hm. reflexivity. }
  specialize (Hres (inr m) (videoRefCurrent p c0)). rewrite Hvr in Hres.
  rewrite <- Hvr in Hres at 1.
  destruct (exec_facts p noFrame _ _ _ _ Hres) as (Hl & Hs & _).
  assert (Hlive : liveTracks (exec p noFrame (k (inr m)) c0) =
                  getTracks m ++ liveTracks c).
  { rewrite exec_liveTracks; [ reflexivity | ]. rewrite Hres.
    destruct (videoShown (render p (session c))); stops_nothing. }
  change (log c0) with (log c) in Hl.
  change (session c0) with (session c) in Hs.
  change (mounted c0) with (mounted c) in Hs. rewrite Hm in Hs.
  rewrite Hl, Hs, Hlive.
  split; [ reflexivity | ].
  assert (Hview : forall t,
            stream (commit (setStream (Some m) :: setHasPermission true :: t)
                           (session c)) = Some m ->
            hasPermission (commit (setStream (Some m) :: setHasPermission true :: t)
                                  (session c)) = Some true ->
            currentStep (commit (setStream (Some m) :: setHasPermission true :: t)
                                (session c)) = scanning ->
            videoShown (render p (commit (setStream (Some m) :: setHasPermission true :: t)
                                         (session c))) = true).
  { intros t _ H2 H3. unfold render. rewrite H2, H3. reflexivity. }
  destruct (videoShown (render p (session c))) eqn:Hv.
  - repeat split; try (simpl; assumption).
    + apply Hview; simpl; auto.
    + intros Hd. rewrite Hd in Hv. discriminate.
  - repeat split; try (simpl; assumption).
    apply Hview; simpl; auto.
Qed.

Lemma camera_granted_attaches_if_shown_witness :
  let c := afterEvents demoProps retryRequested in
  reachable demoProps c /\ mounted c = true /\
  render demoProps (session c) = PermissionDeniedView /\
  exists c',
    fire demoProps (cameraSettles 0 (inr demoStream)) c = Some c' /\
    log c' = log c ++ [setStream (Some demoStream); setHasPermission true] /\
    videoShown (render demoProps (session c')) = true.
Proof.
  split; [ apply afterEvents_reachable | ]. split; [ reflexivity | ].
  split; [ reflexivity | ].
  destruct (camera_granted_attaches_if_shown demoProps
              (afterEvents demoProps retryRequested) 0 cameraConstraints
              match startCamera with
              | GetUserMedia _ k => k
              | _ => fun _ => Ret
              end demoStream (afterEvents_reachable _ _) eq_refl eq_refl)
    as (c' & H1 & _ & _ & _ & _ & _ & H7 & H8).
  exists c'. split; [ exact H1 | ]. split; [ apply H8; reflexivity | exact H7 ].
Defined.

(** * A response that arrives late *)

Lemma spawned_json_accept p r k data face_id videoRef :
  spawned p (awaitingJson r k) ->
  json r = inr data ->
  get_member data "status" = inr (JStr "success") ->
  get_member data "face_id" = inr face_id ->
  advance noFrame videoRef (k (json r)) =
    ([console_log "Scan response:" data;
      setScannedFaceId face_id;
      toast_success "Ansikte och personuppgifter sparade!";
      setTimeout callOnAutoCheckIn 1000;
      setIsScanning false],
     finished normal).
Proof.
  intros H Hj Hs Hi.
  inversion H as [ | | req k0 r0 vr t r' k' Hf Heq ]; subst.
  inversion Hf as [ | img vr' t' req' k'' Heq' | ]; subst.
  unfold captureAndScanFace, scanAttempt in Heq'. simpl in Heq'.
  injection Heq' as <- <- <-. simpl in Heq. injection Heq as <- <- <-.
  rewrite Hj. unfold handleScanResponse. simpl. rewrite Hs. simpl. rewrite Hi.
  reflexivity.
Qed.

Lemma nth_error_snoc {A : Type} (l : list A) x :
  nth_error (l ++ [x]) (List.length l) = Some x.
Proof.
  rewrite nth_error_app2 by lia. rewrite Nat.sub_diag. reflexivity.
Qed.

Lemma remove_nth_snoc {A : Type} (l : list A) x :
  remove_nth (List.length l) (l ++ [x]) = l.
Proof. induction l as [ | y l IH ]; simpl; [ reflexivity | rewrite IH; reflexivity ]. Qed.

(** X11. A success body read while a submission of this flow is waiting
    arms the 1000 ms timer whether or not the component is still mounted,
    and the timer then calls [onAutoCheckIn]: the timer is never cancelled
    and no handler checks that the flow is still open.  When the component
    was unmounted, its state is left as it was. *)
Theorem late_success_still_checks_in
    (p : Props) (c : Config) (i : nat) (r : Response)
    (k : exn + jsval -> Prog) (data face_id : jsval) :
  reachable p c ->
  nth_error (pending c) i = Some (awaitingJson r k) ->
  json r = inr data ->
  get_member data "status" = inr (JStr "success") ->
  get_member data "face_id" = inr face_id ->
  exists c1 c2,
    fire p (jsonSettles i) c = Some c1 /\
    timers c1 = timers c ++ [(callOnAutoCheckIn, 1000)] /\
    (mounted c = false -> session c1 = session c) /\
    fire p (timerFires (List.length (timers c))) c1 = Some c2 /\
    timers c2 = timers c /\
    session c2 = session c1 /\
    log c2 = log c ++
      [console_log "Scan response:" data;
       setScannedFaceId face_id;
       toast_success "Ansikte och personuppgifter sparade!";
       setTimeout callOnAutoCheckIn 1000;
       setIsScanning false;
       onAutoCheckIn].
Proof.
  intros Hr Hn Hj Hs Hi.
  pose proof (nth_error_Forall _ _ _ _ Hn (reachable_spawned _ _ Hr)) as Hsp.
  set (c1 := exec p noFrame (k (json r)) (unpend i c)).
  pose proof (spawned_json_accept p r k data face_id
                (videoRefCurrent p (unpend i c)) Hsp Hj Hs Hi) as Hadv.
  destruct (exec_facts p noFrame _ _ _ _ Hadv) as (Hl & Hses & Ht & _ & Hm).
  fold c1 in Hl, Hses, Ht, Hm.
  change (log (unpend i c)) with (log c) in Hl.
  change (session (unpend i c)) with (session c) in Hses.
  change (mounted (unpend i c)) with (mounted c) in Hses, Hm.
  change (timers (unpend i c)) with (timers c) in Ht.
  change (armedTimeouts _) with [(callOnAutoCheckIn, 1000)] in Ht.
  set (c2 := exec p noFrame (onAutoCheckIn ;; Ret)
               (untimer (List.length (timers c)) c1)).
  destruct (exec_facts p noFrame (onAutoCheckIn ;; Ret)
              (untimer (List.length (timers c)) c1) _ _ eq_refl)
    as (Hl2 & Hses2 & Ht2 & _).
  fold c2 in Hl2, Hses2, Ht2.
  change (log (untimer (List.length (timers c)) c1)) with (log c1) in Hl2.
  change (session (untimer (List.length (timers c)) c1)) with (session c1) in Hses2.
  change (mounted (untimer (List.length (timers c)) c1)) with (mounted c1) in Hses2.
  change (timers (untimer (List.length (timers c)) c1))
    with (remove_nth (List.length (timers c)) (timers c1)) in Ht2.
  change (armedTimeouts _) with (@nil (timerCallback * nat)) in Ht2.
  assert (H1 : fire p (jsonSettles i) c = Some c1) by (simpl; rewrite Hn; reflexivity).
  clearbody c1.
  assert (Hn' : nth_error (timers c1) (List.length (timers c)) =
                Some (callOnAutoCheckIn, 1000)) by (rewrite Ht; apply nth_error_snoc).
  assert (H2 : fire p (timerFires (List.length (timers c))) c1 = Some c2)
    by (simpl; rewrite Hn'; reflexivity).
  clearbody c2.
  exists c1, c2. split; [ exact H1 | ].
  split; [ exact Ht | ].
  split; [ intros Hu; rewrite Hses, Hu; reflexivity | ].
  split; [ exact H2 | ].
  split; [ rewrite Ht2, Ht, remove_nth_snoc, app_nil_r; reflexivity | ].
  split.
  - rewrite Hses2. destruct (mounted c1); reflexivity.
  - rewrite Hl2, Hl, <- app_assoc. reflexivity.
Qed.

Lemma late_success_still_checks_in_witness :
  let c := afterEvents demoProps closedWhileScanning in
  reachable demoProps c /\ mounted c = false /\
  exists c1 c2,
    fire demoProps (jsonSettles 0) c = Some c1 /\
    session c1 = session c /\
    fire demoProps (timerFires 0) c1 = Some c2 /\
    List.length (filter isAutoCheckIn (log c2)) = 1.
Proof.
  split; [ apply afterEvents_reachable | ]. split; [ reflexivity | ].
  destruct (late_success_still_checks_in demoProps
              (afterEvents demoProps closedWhileScanning) 0 acceptingResponse
              match pending (afterEvents demoProps closedWhileScanning) with
              | awaitingJson _ k :: _ => k
              | _ => fun _ => Ret
              end
              (JObj [("status", JStr "success"); ("face_id", JStr "abc123")])
              (JStr "abc123")
              (afterEvents_reachable _ _) eq_refl eq_refl eq_refl eq_refl)
    as (c1 & c2 & H1 & _ & H3 & H4 & _ & _ & H7).
  exists c1, c2. split; [ exact H1 | ]. split; [ apply H3; reflexivity | ].
  split; [ exact H4 | ]. rewrite H7. reflexivity.
Defined.

(** * A capture that throws *)

Lemma session_eta s :
  mkSession (currentStep s) (isScanning s) (stream s) (hasPermission s)
            (consentChecked s) (scannedFaceId s) = s.
Proof. destruct s; reflexivity. Qed.

(** X13. When the capture itself throws (no video frame, no canvas
    context), the click sends nothing and leaves nothing waiting: the
    exception is logged, the scan-error toast is shown, and the committed
    state is the one before the click, so the capture button is enabled
    again at once. *)
Theorem capture_exception_is_transient (p : Props) (c : Config) (e : exn) :
  mounted c = true ->
  captureEnabled (render p (session c)) = true ->
  exists c',
    fire p (clickCapture (inl e)) c = Some c' /\
    log c' = log c ++
      [setIsScanning true;
       console_error "Fel vid ansiktsskanning:" e;
       toast_error "Kunde inte skanna ansikte. Försök igen.";
       setIsScanning false] /\
    session c' = session c /\
    pending c' = pending c /\
    timers c' = timers c /\
    liveTracks c' = liveTracks c /\
    captureEnabled (render p (session c')) = true.
Proof.
  intros Hm Hv.
  exists (exec p (inl e) (captureAndScanFace p) c).
  split; [ simpl; rewrite Hm, Hv; reflexivity | ].
  destruct (exec_facts p (inl e) (captureAndScanFace p) c _ _ eq_refl)
    as (Hl & Hs & Ht & Hp & _).
  assert (Hidle : isScanning (session c) = false).
  { apply captureEnabled_render in Hv. tauto. }
  assert (Hses : session (exec p (inl e) (captureAndScanFace p) c) = session c).
  { rewrite Hs, Hm. simpl. rewrite <- Hidle. apply session_eta. }
  rewrite Hl, Hses, Ht, Hp, !app_nil_r.
  repeat split; auto.
Qed.

Lemma capture_exception_is_transient_witness :
  mounted grantedConfig = true /\
  captureEnabled (render demoProps (session grantedConfig)) = true /\
  exists c',
    fire demoProps (clickCapture noFrame) grantedConfig = Some c' /\
    session c' = session grantedConfig /\ pending c' = [].
Proof.
  split; [ reflexivity | ]. split; [ reflexivity | ].
  destruct (capture_exception_is_transient demoProps grantedConfig
              (TypeError "Cannot read properties of null (reading 'videoWidth')")
              eq_refl eq_refl) as (c' & H1 & _ & H3 & H4 & _).
  exists c'. split; [ exact H1 | ]. split; [ exact H3 | exact H4 ].
Defined.

(** * Closing *)

(** X10. The close buttons are live in every view of a mounted component
    and do one thing: call [onClose].  The state, the waiting handlers, the
    armed timers and the live camera tracks are as before, so closing by
    itself neither releases the camera nor cancels a submission or a pending
    check-in. *)
Theorem close_only_notifies (p : Props) (c : Config) :
  mounted c = true ->
  exists c',
    fire p clickClose c = Some c' /\
    log c' = log c ++ [onClose] /\
    session c' = session c /\
    pending c' = pending c /\
    timers c' = timers c /\
    liveTracks c' = liveTracks c /\
    mounted c' = true.
Proof.
  intros Hm. exists (exec p noFrame (onClose ;; Ret) c).
  split; [ simpl; rewrite Hm; reflexivity | ].
  destruct (exec_facts p noFrame (onClose ;; Ret) c _ _ eq_refl)
    as (Hl & Hs & Ht & Hp & Hmm).
  rewrite Hl, Hs, Ht, Hp, Hmm, Hm, !app_nil_r. repeat split.
Qed.

Lemma close_only_notifies_witness :
  let c := afterEvents demoProps (cameraGranted ++ [clickCapture (inr demoFrame)]) in
  mounted c = true /\
  exists c',
    fire demoProps clickClose c = Some c' /\
    liveTracks c' = [7; 8] /\ scansInFlight c' = 1.
Proof.
  split; [ reflexivity | ].
  destruct (close_only_notifies demoProps
              (afterEvents demoProps (cameraGranted ++ [clickCapture (inr demoFrame)]))
              eq_refl) as (c' & H1 & _ & _ & H4 & _ & H6 & _).
  exists c'. split; [ exact H1 | ]. split; [ rewrite H6; reflexivity | ].
  unfold scansInFlight. rewrite H4. reflexivity.
Defined.

(** * The views *)

(** X12. The permission-denied dialog is rendered exactly in the scanning
    step with [hasPermission] false, and it replaces the scanning view: while
    it is up there is no [<video>] element and no capture button.  The
    [<video>] element is on screen exactly in the scanning step otherwise,
    and at most one of the continue, capture and retry buttons responds in
    any state. *)
Theorem views_are_exclusive (p : Props) (s : Session) :
  let v := render p s in
  (retryOffered v = true <->
   currentStep s = scanning /\ hasPermission s = Some false) /\
  (videoShown v = true <->
   currentStep s = scanning /\ hasPermission s <> Some false) /\
  (continueEnabled v = true <->
   currentStep s = consent /\ consentChecked s = true) /\
  (retryOffered v = true -> videoShown v = false /\ captureEnabled v = false) /\
  (continueEnabled v = true -> captureEnabled v = false /\ retryOffered v = false) /\
  (captureEnabled v = true -> videoShown v = true /\ continueEnabled v = false).
Proof.
  unfold render. destruct s as [st sc sm hp cc fid]; simpl.
  destruct st, hp as [[ | ] | ], cc, sc, sm as [m | ]; simpl;
    repeat split; intros; try discriminate; try tauto; try congruence;
    try (destruct H; congruence); try (destruct H; discriminate).
Qed.

(** * [startCamera], one invocation *)

Lemma startCameraIn_defined : startCameraIn true = startCamera.
Proof. reflexivity. Qed.

Lemma handleConsentAcceptedIn_defined s :
  handleConsentAcceptedIn true s = handleConsentAccepted s.
Proof. reflexivity. Qed.

(** X1. [startCamera] never throws, whatever the page and the platform do;
    it sends nothing to the service and leaves the step, [isScanning], the
    consent flag and the face id alone.  Where [navigator.mediaDevices] is
    defined it asks for one stream, front-facing at ideal 640x480, and on a
    grant stores the stream, sets [hasPermission] to [true], and assigns the
    stream to the [<video>] element exactly when [videoRef.current] is set.
    Where it is undefined no request is made: the [catch] block runs at
    once, setting [hasPermission] to [false] and showing the error toast. *)
Theorem startCamera_contract (mediaDevices : bool) (env : Env) (s : Session) :
  let t := trace env (startCameraIn mediaDevices) in
  let s' := commit t s in
  outcome env (startCameraIn mediaDevices) = normal /\
  cameraRequests env (startCameraIn mediaDevices) =
    (if mediaDevices then [mkConstraints 640 480 "user"] else []) /\
  requests env (startCameraIn mediaDevices) = [] /\
  currentStep s' = currentStep s /\
  isScanning s' = isScanning s /\
  consentChecked s' = consentChecked s /\
  scannedFaceId s' = scannedFaceId s /\
  (mediaDevices = true ->
   forall m, env_camera env = inr m ->
     t = setStream (Some m) :: setHasPermission true ::
           (if env_videoRef env then [set_srcObject m] else []) /\
     stream s' = Some m /\ hasPermission s' = Some true) /\
  (mediaDevices = false ->
   t = cameraRefused mediaDevicesMissing /\
   advance noFrame (env_videoRef env) (startCameraIn false) =
     (cameraRefused mediaDevicesMissing, finished normal) /\
   stream s' = stream s /\ hasPermission s' = Some false).
Proof.
  unfold trace, outcome, startCameraIn. destruct mediaDevices; simpl.
  - destruct (env_camera env) as [e | m]; simpl.
    + repeat split; intros; discriminate.
    + destruct (env_videoRef env); simpl; repeat split; intros; try discriminate;
        match goal with H : inr _ = inr _ |- _ => injection H as <- end; reflexivity.
  - repeat split; intros; discriminate.
Qed.

Lemma startCamera_contract_witness :
  let env := mkEnv (inr demoStream) (inl denial) noFrame false in
  env_camera env = inr demoStream /\
  trace env (startCameraIn true) = [setStream (Some demoStream); setHasPermission true] /\
  stream (commit (trace env (startCameraIn true)) awaitingCameraSession) = Some demoStream /\
  trace env (startCameraIn false) = cameraRefused mediaDevicesMissing /\
  cameraRequests env (startCameraIn false) = [].
Proof.
  split; [ reflexivity | ].
  destruct (startCamera_contract true (mkEnv (inr demoStream) (inl denial) noFrame false)
              awaitingCameraSession) as (_ & _ & _ & _ & _ & _ & _ & H & _).
  destruct (H eq_refl demoStream eq_refl) as (H1 & H2 & _).
  destruct (startCamera_contract false (mkEnv (inr demoStream) (inl denial) noFrame false)
              awaitingCameraSession) as (_ & Hc & _ & _ & _ & _ & _ & _ & H').
  destruct (H' eq_refl) as (H3 & _).
  split; [ exact H1 | ]. split; [ exact H2 | ]. split; [ exact H3 | exact Hc ].
Defined.

(** * What the service's answer is taken for *)

Lemma lookup_field_absent k fields :
  (forall v, ~ In (k, v) fields) -> lookup_field k fields = JUndefined.
Proof.
  induction fields as [ | [k' v'] rest IH ]; simpl; intros H; [ reflexivity | ].
  destruct (String.eqb k k') eqn:E.
  - apply String.eqb_eq in E. subst k'. exfalso. apply (H v'). left. reflexivity.
  - apply IH. intros v Hv. apply (H v). right. exact Hv.
Qed.

Lemma trace_captureAndScanFace_body p env img r data :
  env_frame env = inr img -> env_fetch env = inr r -> json r = inr data ->
  trace env (captureAndScanFace p) =
    setIsScanning true :: console_log "Scan response:" data ::
      fst (run env (try_catch (handleScanResponse data) scanCatch)) ++
      [setIsScanning false].
Proof.
  intros Hf Hr Hj. unfold trace. rewrite run_captureAndScanFace. cbn [fst].
  rewrite !run_try_catch. unfold scanAttempt. simpl.
  rewrite Hf; simpl. rewrite Hr; simpl. rewrite Hj; simpl.
  destruct (run env (handleScanResponse data)) as [t [ | e]]; simpl;
    [ reflexivity | ].
  destruct (run env (scanCatch e)); reflexivity.
Qed.

(** X5. When the body is an object whose [status] is ["success"], the value
    stored as the face id is whatever the object's [face_id] property holds,
    of any JSON type, and [undefined] when the property is missing; the
    success toast and the 1000 ms check-in timer follow all the same. *)
Theorem accepted_scan_stores_field
    (p : Props) (env : Env) (s : Session) (img : string) (r : Response)
    (fields : list (string * jsval)) :
  env_frame env = inr img ->
  env_fetch env = inr r ->
  json r = inr (JObj fields) ->
  lookup_field "status" fields = JStr "success" ->
  let t := trace env (captureAndScanFace p) in
  t = [setIsScanning true;
       console_log "Scan response:" (JObj fields);
       setScannedFaceId (lookup_field "face_id" fields);
       toast_success "Ansikte och personuppgifter sparade!";
       setTimeout callOnAutoCheckIn 1000;
       setIsScanning false] /\
  scannedFaceId (commit t s) = lookup_field "face_id" fields /\
  ((forall v, ~ In ("face_id", v) fields) ->
   scannedFaceId (commit t s) = JUndefined).
Proof.
  intros Hf Hr Hj Hs. cbv zeta.
  rewrite (trace_captureAndScanFace_body p env img r _ Hf Hr Hj).
  unfold handleScanResponse. simpl. rewrite Hs. simpl.
  repeat split. intros Habs. apply lookup_field_absent. exact Habs.
Qed.

Lemma accepted_scan_stores_field_witness :
  let t := trace idlessEnv (captureAndScanFace demoProps) in
  env_frame idlessEnv = inr demoFrame /\
  scannedFaceId (commit t (scanningSession demoStream)) = JUndefined /\
  armedTimeouts t = [(callOnAutoCheckIn, 1000)].
Proof.
  split; [ reflexivity | ].
  destruct (accepted_scan_stores_field demoProps idlessEnv (scanningSession demoStream)
              demoFrame (mkResponse 200 (inr (JObj [("status", JStr "success")])))
              [("status", JStr "success")] eq_refl eq_refl eq_refl eq_refl)
    as (H1 & _ & H3).
  split.
  - apply H3. intros v [H | []]. discriminate H.
  - rewrite H1. reflexivity.
Defined.

(** X6. The HTTP status code of the response is never consulted: two
    responses with the same body lead to the same effects and the same
    completion, whatever their status codes. *)
Theorem http_status_is_ignored
    (p : Props) (camera : exn + MediaStream) (frame : exn + string)
    (videoRef : bool) (code code' : nat) (body : exn + jsval) :
  run (mkEnv camera (inr (mkResponse code body)) frame videoRef) (captureAndScanFace p) =
  run (mkEnv camera (inr (mkResponse code' body)) frame videoRef) (captureAndScanFace p).
Proof.
  rewrite !run_captureAndScanFace, !run_try_catch. unfold scanAttempt. simpl.
  destruct frame as [e | img]; simpl; [ reflexivity | ].
  destruct body as [e | data]; simpl; [ reflexivity | ].
  unfold handleScanResponse.
  destruct (get_member data "status") as [e | st]; simpl; [ reflexivity | ].
  destruct (strict_eq_str st "success"); simpl; [ | reflexivity ].
  destruct (get_member data "face_id"); reflexivity.
Qed.

(** X7. How a parsed body is taken.  A [null] body makes [data.status]
    throw inside the [try]: it is logged and reported with the scan-error
    toast.  A boolean, number, string or array body, and an object without a
    [status] property, have an undefined [status] and are reported with the
    could-not-save toast.  A face id is stored only for an object whose
    [status] is the string ["success"]. *)
Theorem response_body_classes
    (p : Props) (env : Env) (img : string) (r : Response) (data : jsval) :
  env_frame env = inr img ->
  env_fetch env = inr r ->
  json r = inr data ->
  let t := trace env (captureAndScanFace p) in
  let rejected := [setIsScanning true;
                   console_log "Scan response:" data;
                   toast_error "Kunde inte spara ansikte och uppgifter.";
                   setIsScanning false] in
  (data = JNull ->
   exists e, t = [setIsScanning true;
                  console_log "Scan response:" JNull;
                  console_error "Fel vid ansiktsskanning:" e;
                  toast_error "Kunde inte skanna ansikte. Försök igen.";
                  setIsScanning false]) /\
  ((exists b, data = JBool b) \/ (exists n, data = JNum n) \/
   (exists x, data = JStr x) \/ (exists l, data = JArr l) -> t = rejected) /\
  (forall fields, data = JObj fields ->
     (forall v, ~ In ("status", v) fields) -> t = rejected) /\
  (forall face_id, In (setScannedFaceId face_id) t ->
     exists fields, data = JObj fields /\
                    lookup_field "status" fields = JStr "success" /\
                    face_id = lookup_field "face_id" fields).
Proof.
  intros Hf Hr Hj. cbv zeta.
  rewrite (trace_captureAndScanFace_body p env img r _ Hf Hr Hj).
  unfold handleScanResponse.
  split; [ | split; [ | split ] ].
  - intros ->. simpl. eexists. reflexivity.
  - intros [(b & ->) | [(n & ->) | [(x & ->) | (l & ->)]]]; reflexivity.
  - intros fields -> Habs. simpl. rewrite (lookup_field_absent _ _ Habs). reflexivity.
  - intros fid Hin. destruct data as [ | | b | n | x | l | fields ]; simpl in Hin;
      try (intuition discriminate).
    destruct (strict_eq_str (lookup_field "status" fields) "success") eqn:E;
      simpl in Hin.
    + apply strict_eq_str_true in E. exists fields.
      destruct Hin as [H | [H | [H | H]]]; try discriminate.
      * injection H as <-. auto.
      * intuition discriminate.
    + intuition discriminate.
Qed.

Lemma response_body_classes_witness :
  let env := mkEnv (inl denial) (inr (mkResponse 200 (inr JNull))) (inr demoFrame) true in
  env_frame env = inr demoFrame /\
  exists e, trace env (captureAndScanFace demoProps) =
              [setIsScanning true;
               console_log "Scan response:" JNull;
               console_error "Fel vid ansiktsskanning:" e;
               toast_error "Kunde inte skanna ansikte. Försök igen.";
               setIsScanning false].
Proof.
  split; [ reflexivity | ].
  destruct (response_body_classes demoProps
              (mkEnv (inl denial) (inr (mkResponse 200 (inr JNull))) (inr demoFrame) true)
              demoFrame (mkResponse 200 (inr JNull)) JNull eq_refl eq_refl eq_refl)
    as (H & _).
  exact (H eq_refl).
Defined.

(** * Retrying *)

Lemma fireIn_defined p ev c : fireIn true p ev c = fire p ev c.
Proof. destruct ev; reflexivity. Qed.

Lemma clickRetry_step p c :
  mounted c = true -> render p (session c) = PermissionDeniedView ->
  exists c',
    fireIn true p clickRetry c = Some c' /\
    mounted c' = true /\ session c' = session c /\ log c' = log c /\
    List.length (filter cameraWaiting (pending c')) =
      S (List.length (filter cameraWaiting (pending c))).
Proof.
  intros Hm Hv. exists (exec p noFrame startCamera c).
  split; [ simpl; rewrite Hm, Hv; reflexivity | ].
  destruct (exec_facts p noFrame startCamera c _ _ eq_refl)
    as (Hl & Hs & _ & Hp & Hmm).
  rewrite Hl, Hs, Hp, Hmm, Hm, app_nil_r, filter_app, length_app. simpl.
  repeat split. lia.
Qed.

Lemma clickRetry_step_refused p c :
  mounted c = true -> render p (session c) = PermissionDeniedView ->
  exists c',
    fireIn false p clickRetry c = Some c' /\
    mounted c' = true /\ session c' = session c /\ pending c' = pending c /\
    log c' = log c ++ cameraRefused mediaDevicesMissing.
Proof.
  intros Hm Hv. exists (exec p noFrame (startCameraIn false) c).
  split; [ simpl; rewrite Hm, Hv; reflexivity | ].
  destruct (exec_facts p noFrame (startCameraIn false) c _ _ eq_refl)
    as (Hl & Hs & _ & Hp & Hmm).
  assert (Hperm : hasPermission (session c) = Some false).
  { unfold render in Hv.
    destruct (hasPermission (session c)) as [[ | ] | ]; simpl in Hv;
      try discriminate; reflexivity. }
  rewrite Hl, Hs, Hp, Hmm, Hm, app_nil_r. repeat split.
  simpl. rewrite <- Hperm. apply session_eta.
Qed.

(** X15. The retry button is not guarded the way the capture button is:
    while the permission-denied dialog is up every click on it runs
    [startCamera] again and the dialog stays up.  Where
    [navigator.mediaDevices] is defined each click issues one more
    [getUserMedia] request without any visible change, so [n] clicks leave
    [n] more camera requests waiting side by side.  Where it is undefined
    each click runs the [catch] block at once: the error is logged and the
    toast shown again, and nothing is left waiting. *)
Theorem retry_is_not_guarded
    (mediaDevices : bool) (p : Props) (c : Config) (n : nat) :
  mounted c = true ->
  render p (session c) = PermissionDeniedView ->
  exists c',
    fireAllIn mediaDevices p (repeat clickRetry n) c = Some c' /\
    session c' = session c /\
    render p (session c') = PermissionDeniedView /\
    (mediaDevices = true ->
     log c' = log c /\
     List.length (filter cameraWaiting (pending c')) =
       List.length (filter cameraWaiting (pending c)) + n) /\
    (mediaDevices = false ->
     pending c' = pending c /\
     log c' = log c ++ List.concat (repeat (cameraRefused mediaDevicesMissing) n)).
Proof.
  revert c. induction n as [ | n IH ]; intros c Hm Hv.
  - exists c. simpl. rewrite app_nil_r. repeat split; auto.
  - destruct mediaDevices.
    + destruct (clickRetry_step p c Hm Hv) as (c1 & Hf & Hm1 & Hs1 & Hl1 & Hp1).
      destruct (IH c1 Hm1) as (c' & Hf' & Hs' & Hv' & Hyes & _).
      { rewrite Hs1. exact Hv. }
      destruct (Hyes eq_refl) as (Hl' & Hp').
      exists c'. cbn [repeat fireAllIn]. rewrite Hf.
      split; [ exact Hf' | ]. split; [ congruence | ]. split; [ exact Hv' | ].
      split; [ | discriminate ].
      intros _. split; [ congruence | ]. rewrite Hp', Hp1. lia.
    + destruct (clickRetry_step_refused p c Hm Hv) as (c1 & Hf & Hm1 & Hs1 & Hp1 & Hl1).
      destruct (IH c1 Hm1) as (c' & Hf' & Hs' & Hv' & _ & Hno).
      { rewrite Hs1. exact Hv. }
      destruct (Hno eq_refl) as (Hp' & Hl').
      exists c'. cbn [repeat fireAllIn]. rewrite Hf.
      split; [ exact Hf' | ]. split; [ congruence | ]. split; [ exact Hv' | ].
      split; [ discriminate | ].
      intros _. split; [ congruence | ].
      rewrite Hl', Hl1. cbn [repeat List.concat]. rewrite <- app_assoc. reflexivity.
Qed.

Lemma retry_is_not_guarded_witness :
  let c := afterEvents demoProps (cameraRequested ++ [cameraSettles 0 (inl denial)]) in
  mounted c = true /\ render demoProps (session c) = PermissionDeniedView /\
  (exists c',
     fireAllIn true demoProps [clickRetry; clickRetry; clickRetry] c = Some c' /\
     List.length (filter cameraWaiting (pending c')) = 3) /\
  mounted refusedConfig = true /\
  render demoProps (session refusedConfig) = PermissionDeniedView /\
  (exists c',
     fireAllIn false demoProps [clickRetry; clickRetry] refusedConfig = Some c' /\
     pending c' = [] /\
     List.length (log c') = List.length (log refusedConfig) + 6).
Proof.
  split; [ reflexivity | ]. split; [ reflexivity | ].
  split.
  - destruct (retry_is_not_guarded true demoProps
                (afterEvents demoProps (cameraRequested ++ [cameraSettles 0 (inl denial)]))
                3 eq_refl eq_refl) as (c' & H1 & _ & _ & H4 & _).
    exists c'. split; [ exact H1 | exact (proj2 (H4 eq_refl)) ].
  - split; [ reflexivity | ]. split; [ reflexivity | ].
    destruct (retry_is_not_guarded false demoProps refusedConfig 2 eq_refl eq_refl)
      as (c' & H1 & _ & _ & _ & H5).
    destruct (H5 eq_refl) as (Hp & Hl).
    exists c'. split; [ exact H1 | ]. split; [ rewrite Hp; reflexivity | ].
    rewrite Hl, length_app. reflexivity.
Defined.

(** * [stopCamera], run again and again *)

(** X16. Run by the render of a state that holds a stream, [stopCamera]
    stops each of its tracks in order and then clears the handle (a stream
    without tracks is just cleared); run by the render of a state without
    one it does nothing.  Running it again on the state it leaves, any
    number of times, performs no effect and changes nothing. *)
Theorem stopCamera_repeated (env : Env) (s : Session) (n : nat) :
  (forall m, stream s = Some m ->
     trace env (stopCamera s) = map track_stop (getTracks m) ++ [setStream None]) /\
  (stream s = None -> trace env (stopCamera s) = [] /\ released env s = s) /\
  stream (released env s) = None /\
  trace env (stopCamera (released env s)) = [] /\
  Nat.iter (S n) (released env) s = released env s.
Proof.
  assert (Hnone : forall s0, stream s0 = None -> released env s0 = s0).
  { intros s0 H0. unfold released. rewrite commit_stopCamera, H0. reflexivity. }
  assert (Hcleared : stream (released env s) = None).
  { unfold released. rewrite commit_stopCamera.
    destruct (stream s) eqn:E; [ reflexivity | exact E ]. }
  split; [ | split; [ | split; [ exact Hcleared | split ] ] ].
  - intros m Hm. rewrite trace_stopCamera, Hm. reflexivity.
  - intros H0. split; [ rewrite trace_stopCamera, H0; reflexivity | apply Hnone; exact H0 ].
  - rewrite trace_stopCamera, Hcleared. reflexivity.
  - induction n as [ | n IH ]; [ reflexivity | ].
    change (Nat.iter (S (S n)) (released env) s)
      with (released env (Nat.iter (S n) (released env) s)).
    rewrite IH. apply Hnone. exact Hcleared.
Qed.
